(** * IoT ingestion service over TCP: protocol, validation and exchange handler

    A shallow embedding of [src/models.py], [src/validators.py],
    [src/protocol.py] and [src/server.py], followed by the properties of the
    specification that concern them.

    Conventions of the embedding.
    - A Python [str] is a list of Unicode code points ([str]); [bytes] and
      [bytearray] are lists of [byte].
    - A value that comes out of [json.loads] is a [pyval]; the dataclasses
      do not check their field types, so their fields are [pyval] too.
    - A Python [float] is [pyfloat]: NaN, an infinity, or a finite value kept
      as the rational it denotes, which makes every comparison exact (the
      doubles are a subset of these values, and Python compares an [int] with
      a [float] exactly).
    - A raised exception is the left injection of [result]; the exception
      classes the code distinguishes are the constructors of [exn].
    - Library functions whose text is outside the repository
      ([json.dumps], [json.loads], [datetime.fromisoformat], [str(e)] and the
      rendering of f-strings) are Section variables. *)

From Stdlib Require Import String Ascii DecimalString.
From Stdlib.Strings Require Import Byte.
From Stdlib Require Import List ZArith NArith QArith Lia Bool.
Import ListNotations.

Set Implicit Arguments.
Set Warnings "-register-all".
Local Open Scope Z_scope.

(* ================================================================== *)
(** ** Python values *)

Module Py.

Definition codepoint := N.
Definition str := list codepoint.
Definition bytes := list byte.

(** An ASCII literal of the source as a [str]. *)
Definition lit (s : string) : str :=
  List.map N_of_ascii (list_ascii_of_string s).

Fixpoint str_eqb (a b : str) : bool :=
  match a, b with
  | [], [] => true
  | x :: a', y :: b' => N.eqb x y && str_eqb a' b'
  | _, _ => false
  end.

Inductive pyfloat :=
| FNaN
| FInf (negative : bool)
| FFin (q : Q).

Inductive pyval :=
| PNone
| PBool (b : bool)
| PInt (z : Z)
| PFloat (f : pyfloat)
| PStr (s : str)
| PList (l : list pyval)
| PDict (d : list (str * pyval)).

(** The texts the code builds with f-strings, kept as template and
    arguments, together with the texts of the library's exceptions. *)
Inductive text :=
| TEmptyMessage                                   (* "Message vide" *)
| TTooLarge (max_size : Z)                        (* "Message trop volumineux (> {max_size} octets)" *)
| TJSONDecode (detail : str)                      (* json.JSONDecodeError *)
| TUnicodeDecode (data : bytes)                   (* UnicodeDecodeError *)
| TUnicodeEncode (s : str)                        (* UnicodeEncodeError *)
| TUnsupportedType (msg_type : pyval)             (* "Type non supporté : {msg_type}" *)
| TSensorIdRequired                               (* "Le sensor_id est obligatoire ..." *)
| TNonNumeric (v : pyval)                         (* "Valeur non numérique : {v!r} (type=...)" *)
| TOutOfRange (v : pyval) (vmin vmax : pyfloat) (ty : pyval)
                                                  (* "Valeur {v} hors plage [{vmin}, {vmax}] pour type={ty}" *)
| TBadTimestamp (ts : pyval)                      (* "Timestamp invalide : {ts!r}" *)
| TPumpOff (irrigation_mm : pyval)                (* "pump_status=OFF mais irrigation_mm={..} > 0" *)
| TKey (key : str).                               (* str(KeyError(key)) *)

(** The exception classes that the handlers of the code tell apart.
    [SocketTimeout] is a subclass of [OSError]; the Unicode and JSON
    errors are [ValueError]s. *)
Inductive exn :=
| SocketTimeout
| OSError
| ValueError (t : text)
| KeyError (key : str)
| AttributeError
| TypeError.

Definition result (A : Type) := (exn + A)%type.
Definition ok {A} (a : A) : result A := inr a.
Definition raise {A} (e : exn) : result A := inl e.
Definition bind {A B} (c : result A) (k : A -> result B) : result B :=
  match c with
  | inl e => inl e
  | inr a => k a
  end.

Definition is_OSError (e : exn) : bool :=
  match e with SocketTimeout | OSError => true | _ => false end.
Definition is_ValueError (e : exn) : bool :=
  match e with ValueError _ => true | _ => false end.
Definition is_KeyError (e : exn) : bool :=
  match e with KeyError _ => true | _ => false end.

(** Truth value of an object ([bool(v)]). *)
Definition fzero (f : pyfloat) : bool :=
  match f with
  | FFin q => Qeq_bool q 0
  | _ => false
  end.

Definition truthy (v : pyval) : bool :=
  match v with
  | PNone => false
  | PBool b => b
  | PInt z => negb (z =? 0)
  | PFloat f => negb (fzero f)
  | PStr s => match s with [] => false | _ => true end
  | PList l => match l with [] => false | _ => true end
  | PDict d => match d with [] => false | _ => true end
  end.

(** [a or b] *)
Definition py_or (a b : pyval) : pyval := if truthy a then a else b.

(** [isinstance(v, (int, float))]; [bool] is a subclass of [int]. *)
Definition is_int_or_float (v : pyval) : bool :=
  match v with
  | PBool _ | PInt _ | PFloat _ => true
  | _ => false
  end.

(** The number a numeric object denotes in a comparison. *)
Definition number_of (v : pyval) : option pyfloat :=
  match v with
  | PBool b => Some (FFin (inject_Z (Z.b2z b)))
  | PInt z => Some (FFin (inject_Z z))
  | PFloat f => Some f
  | _ => None
  end.

(** [a <= b] and [a < b] on numbers: false as soon as one side is NaN. *)
Definition fle (a b : pyfloat) : bool :=
  match a, b with
  | FNaN, _ | _, FNaN => false
  | FInf true, _ => true
  | _, FInf false => true
  | FInf false, _ => false
  | _, FInf true => false
  | FFin x, FFin y => Qle_bool x y
  end.

Definition flt (a b : pyfloat) : bool :=
  match a, b with
  | FNaN, _ | _, FNaN => false
  | FInf true, FInf true => false
  | FInf true, _ => true
  | FInf false, _ => false
  | FFin _, FInf false => true
  | FFin _, FInf true => false
  | FFin x, FFin y => negb (Qle_bool y x)
  end.

(** [v > 0] for an arbitrary object: a [TypeError] unless [v] is a number. *)
Definition py_gt_zero (v : pyval) : result bool :=
  match number_of v with
  | Some f => ok (flt (FFin 0) f)
  | None => raise TypeError
  end.

(** [v == s] for a [str] constant [s]. *)
Definition py_eq_str (v : pyval) (s : str) : bool :=
  match v with
  | PStr s' => str_eqb s' s
  | _ => false
  end.

(** [hash(v)] succeeds: lists and dicts are unhashable. *)
Definition hashable (v : pyval) : bool :=
  match v with
  | PList _ | PDict _ => false
  | _ => true
  end.

(** Characters removed by [str.strip()] ([str.isspace]). *)
Definition isspace (c : codepoint) : bool :=
  ((9 <=? c) && (c <=? 13) || (28 <=? c) && (c <=? 32)
   || (c =? 133) || (c =? 160) || (c =? 5760)
   || (8192 <=? c) && (c <=? 8202)
   || (c =? 8232) || (c =? 8233) || (c =? 8239) || (c =? 8287)
   || (c =? 12288))%N.

Fixpoint lstrip (s : str) : str :=
  match s with
  | c :: s' => if isspace c then lstrip s' else s
  | [] => []
  end.

Definition strip (s : str) : str := rev (lstrip (rev (lstrip s))).

(** [d.get(key)] on the items of a dict. *)
Fixpoint lookup (d : list (str * pyval)) (key : str) : option pyval :=
  match d with
  | [] => None
  | (k, v) :: d' => if str_eqb k key then Some v else lookup d' key
  end.

(** [v.get(key, default)]: only a dict has the method. *)
Definition py_get (v : pyval) (key : str) (default : pyval) : result pyval :=
  match v with
  | PDict d => ok (match lookup d key with Some x => x | None => default end)
  | _ => raise AttributeError
  end.

(** [v.strip()]: only a [str] has the method among JSON values. *)
Definition py_strip (v : pyval) : result str :=
  match v with
  | PStr s => ok (strip s)
  | _ => raise AttributeError
  end.

(** The elements [for x in v] visits; numbers, booleans and [None] are
    not iterable. *)
Definition py_iter (v : pyval) : result (list pyval) :=
  match v with
  | PList l => ok l
  | PStr s => ok (List.map (fun c => PStr [c]) s)
  | PDict d => ok (List.map (fun kv => PStr (fst kv)) d)
  | _ => raise TypeError
  end.

End Py.

Import Py.

Declare Scope result_scope.
Delimit Scope result_scope with result.
Notation "x <- c ;; k" := (bind c (fun x => k))
  (at level 61, c at next level, right associativity) : result_scope.
Local Open Scope result_scope.

(** [[f(x) for x in l]]: the first exception ends the comprehension. *)
Fixpoint map_result {A B} (f : A -> result B) (l : list A) : result (list B) :=
  match l with
  | [] => ok []
  | x :: l' => y <- f x ;; ys <- map_result f l' ;; ok (y :: ys)
  end.

(* ================================================================== *)
(** ** models.py *)

Module SensorReading.

Record t := mk {
  sensor_id : pyval;
  type : pyval;
  value : pyval;
  unit : pyval;
  timestamp : pyval;
  pump_status : pyval;
  irrigation_mm : pyval
}.

Definition to_dict (r : t) : pyval :=
  PDict [ (lit "sensor_id", sensor_id r);
          (lit "type", type r);
          (lit "value", value r);
          (lit "unit", unit r);
          (lit "timestamp", timestamp r);
          (lit "pump_status", pump_status r);
          (lit "irrigation_mm", irrigation_mm r) ].

Definition from_dict (d : pyval) : result t :=
  sid <- py_get d (lit "sensor_id") (PStr []) ;;
  ty <- py_get d (lit "type") (PStr []) ;;
  v <- py_get d (lit "value") PNone ;;
  u <- py_get d (lit "unit") (PStr []) ;;
  ts <- py_get d (lit "timestamp") (PStr []) ;;
  ps <- py_get d (lit "pump_status") PNone ;;
  irr <- py_get d (lit "irrigation_mm") PNone ;;
  ok (mk sid ty v u ts ps irr).

End SensorReading.

Module ValidationError.

Record t := mk {
  sensor_id : pyval;
  field : str;
  message : text
}.

Section Render.
(** The text of an f-string or of [str(e)]. *)
Variable render : text -> str.

Definition to_dict (e : t) : pyval :=
  PDict [ (lit "sensor_id", sensor_id e);
          (lit "field", PStr (field e));
          (lit "message", PStr (render (message e))) ].
End Render.

End ValidationError.

Module IngestRequest.

Record t := mk {
  source : pyval;
  readings : list SensorReading.t
}.

Definition to_dict (r : t) : pyval :=
  PDict [ (lit "source", source r);
          (lit "readings", PList (List.map SensorReading.to_dict (readings r))) ].

Definition from_dict (d : pyval) : result t :=
  raw <- py_get d (lit "readings") (PList []) ;;
  items <- py_iter raw ;;
  rs <- map_result SensorReading.from_dict items ;;
  src <- py_get d (lit "source") (PStr []) ;;
  ok (mk src rs).

End IngestRequest.

Module IngestResponse.

Record t := mk {
  request_id : pyval;
  accepted_count : nat;
  rejected_count : nat;
  errors : list ValidationError.t;
  processing_time_ms : pyfloat
}.

Section Render.
Variable render : text -> str.

Definition to_dict (r : t) : pyval :=
  PDict [ (lit "request_id", request_id r);
          (lit "accepted_count", PInt (Z.of_nat (accepted_count r)));
          (lit "rejected_count", PInt (Z.of_nat (rejected_count r)));
          (lit "errors", PList (List.map (ValidationError.to_dict render) (errors r)));
          (lit "processing_time_ms", PFloat (processing_time_ms r)) ].
End Render.

End IngestResponse.

(* ================================================================== *)
(** ** validators.py *)

Module Validators.

Definition VALUE_RANGES : list (str * (pyfloat * pyfloat)) :=
  [ (lit "temperature", (FFin (-50), FFin 60));
    (lit "humidity", (FFin 0, FFin 100));
    (lit "rainfall", (FFin 0, FFin 500));
    (lit "irrigation", (FFin 0, FFin 200));
    (lit "wind_speed", (FFin 0, FFin 300)) ].

Fixpoint assoc {B} (d : list (str * B)) (key : str) : option B :=
  match d with
  | [] => None
  | (k, v) :: d' => if str_eqb k key then Some v else assoc d' key
  end.

(** [VALUE_RANGES.get(key)]: hashing an unhashable key is a [TypeError];
    every key of the table is a [str]. *)
Definition ranges_get (key : pyval) : result (option (pyfloat * pyfloat)) :=
  if hashable key then
    match key with
    | PStr s => ok (assoc VALUE_RANGES s)
    | _ => ok None
    end
  else raise TypeError.

Definition error (sid : pyval) (field : string) (message : text) :=
  ValidationError.mk sid (lit field) message.

Section Validate.
(** Whether [datetime.fromisoformat] accepts a string. *)
Variable fromisoformat_ok : str -> bool.

(** [datetime.fromisoformat(ts)] returns: a [ValueError] on a bad string
    and a [TypeError] on another object are both caught by the code. *)
Definition timestamp_parses (ts : pyval) : bool :=
  match ts with
  | PStr s => fromisoformat_ok s
  | _ => false
  end.

Definition validate_single_reading (reading : SensorReading.t)
  : result (list ValidationError.t) :=
  let errors := [] in
  let sid := py_or (SensorReading.sensor_id reading) (PStr (lit "(vide)")) in
  (* sensor_id *)
  blank <- (if negb (truthy (SensorReading.sensor_id reading)) then ok true
            else s <- py_strip (SensorReading.sensor_id reading) ;;
                 ok (negb (truthy (PStr s)))) ;;
  let errors :=
    if blank then errors ++ [error sid "sensor_id" TSensorIdRequired]
    else errors in
  (* value *)
  errors <-
    (if negb (is_int_or_float (SensorReading.value reading)) then
       ok (errors ++ [error sid "value" (TNonNumeric (SensorReading.value reading))])
     else
       range_tuple <- ranges_get (SensorReading.type reading) ;;
       match range_tuple, number_of (SensorReading.value reading) with
       | Some (vmin, vmax), Some v =>
           if negb (fle vmin v && fle v vmax) then
             ok (errors ++ [error sid "value"
                              (TOutOfRange (SensorReading.value reading) vmin vmax
                                 (SensorReading.type reading))])
           else ok errors
       | _, _ => ok errors
       end) ;;
  (* timestamp *)
  let errors :=
    if timestamp_parses (SensorReading.timestamp reading) then errors
    else errors ++ [error sid "timestamp"
                      (TBadTimestamp (SensorReading.timestamp reading))] in
  (* pump / irrigation *)
  inconsistent <-
    (if py_eq_str (SensorReading.pump_status reading) (lit "OFF") then
       match SensorReading.irrigation_mm reading with
       | PNone => ok false
       | irr => py_gt_zero irr
       end
     else ok false) ;;
  let errors :=
    if inconsistent then
      errors ++ [error sid "pump_status"
                   (TPumpOff (SensorReading.irrigation_mm reading))]
    else errors in
  ok errors.

(** The loop of [validate_readings], with its two accumulators. *)
Fixpoint validate_loop (readings accepted : list SensorReading.t)
    (all_errors : list ValidationError.t)
  : result (list SensorReading.t * list ValidationError.t) :=
  match readings with
  | [] => ok (accepted, all_errors)
  | reading :: rest =>
      errs <- validate_single_reading reading ;;
      match errs with
      | _ :: _ => validate_loop rest accepted (all_errors ++ errs)
      | [] => validate_loop rest (accepted ++ [reading]) all_errors
      end
  end.

Definition validate_readings (readings : list SensorReading.t)
  : result (list SensorReading.t * list ValidationError.t) :=
  validate_loop readings [] [].

End Validate.

End Validators.

(* ================================================================== *)
(** ** UTF-8, as [str.encode("utf-8")] and [bytes.decode("utf-8")] do it *)

Module Utf8.

Definition byte_of (n : N) : byte :=
  match Byte.of_N n with
  | Some b => b
  | None => x00
  end.

Definition is_surrogate (c : codepoint) : bool :=
  ((55296 <=? c) && (c <=? 57343))%N.

(** A lone surrogate cannot be encoded (the [strict] error handler). *)
Definition encode_char (c : codepoint) : option bytes :=
  (if c <? 128 then Some [byte_of c]
   else if c <? 2048 then
     Some [byte_of (192 + c / 64); byte_of (128 + c mod 64)]
   else if c <? 65536 then
     if is_surrogate c then None
     else Some [byte_of (224 + c / 4096);
                byte_of (128 + (c / 64) mod 64);
                byte_of (128 + c mod 64)]
   else if c <? 1114112 then
     Some [byte_of (240 + c / 262144);
           byte_of (128 + (c / 4096) mod 64);
           byte_of (128 + (c / 64) mod 64);
           byte_of (128 + c mod 64)]
   else None)%N.

Fixpoint encode (s : str) : option bytes :=
  match s with
  | [] => Some []
  | c :: s' =>
      match encode_char c, encode s' with
      | Some b, Some bs => Some (b ++ bs)
      | _, _ => None
      end
  end.

(** The payload of a continuation byte [10xxxxxx]. *)
Definition continuation (b : byte) : option N :=
  let n := Byte.to_N b in
  (if (128 <=? n) && (n <? 192) then Some (n - 128) else None)%N.

Definition push (c : codepoint) (rest : option str) : option str :=
  match rest with
  | Some s => Some (c :: s)
  | None => None
  end.

(** Strict decoding: overlong forms, surrogates and code points above
    U+10FFFF are rejected. *)
Fixpoint decode (bs : bytes) : option str :=
  match bs with
  | [] => Some []
  | b0 :: r0 =>
      let n0 := Byte.to_N b0 in
      (if n0 <? 128 then push n0 (decode r0)
       else if n0 <? 192 then None
       else if n0 <? 224 then
         match r0 with
         | b1 :: r1 =>
             match continuation b1 with
             | Some c1 =>
                 let c := (n0 - 192) * 64 + c1 in
                 if 128 <=? c then push c (decode r1) else None
             | None => None
             end
         | _ => None
         end
       else if n0 <? 240 then
         match r0 with
         | b1 :: b2 :: r2 =>
             match continuation b1, continuation b2 with
             | Some c1, Some c2 =>
                 let c := (n0 - 224) * 4096 + c1 * 64 + c2 in
                 if (2048 <=? c) && negb (is_surrogate c)
                 then push c (decode r2) else None
             | _, _ => None
             end
         | _ => None
         end
       else if n0 <? 248 then
         match r0 with
         | b1 :: b2 :: b3 :: r3 =>
             match continuation b1, continuation b2, continuation b3 with
             | Some c1, Some c2, Some c3 =>
                 let c := (n0 - 240) * 262144 + c1 * 4096 + c2 * 64 + c3 in
                 if (65536 <=? c) && (c <? 1114112)
                 then push c (decode r3) else None
             | _, _, _ => None
             end
         | _ => None
         end
       else None)%N
  end.

End Utf8.

(* ================================================================== *)
(** ** protocol.py *)

Module Protocol.

Definition PROTOCOL_VERSION : str := lit "v1".
Definition MAX_MESSAGE_SIZE : Z := 1048576.

Definition newline : byte := x0a.

(** [build_message]; [uuid4] is the text of [str(uuid.uuid4())] and [now]
    that of [datetime.now().isoformat()] at the call. A missing
    [request_id] argument is [PNone]. *)
Definition build_message (uuid4 now : str) (msg_type : str) (payload : pyval)
    (request_id : pyval) : pyval :=
  PDict [ (lit "version", PStr PROTOCOL_VERSION);
          (lit "type", PStr msg_type);
          (lit "request_id", py_or request_id (PStr uuid4));
          (lit "sent_at", PStr now);
          (lit "payload", payload) ].

Section Json.
(** [json.dumps(msg, ensure_ascii=False, separators=(",", ":"))] *)
Variable json_dumps : pyval -> str.
(** [json.loads]: the parsed value, or the text of the
    [json.JSONDecodeError] it raises. *)
Variable json_loads : str -> str + pyval.

Definition encode_message (msg : pyval) : result bytes :=
  let line := json_dumps msg in
  match Utf8.encode (line ++ [10%N]) with
  | Some b => ok b
  | None => raise (ValueError (TUnicodeEncode (line ++ [10%N])))
  end.

Definition decode_message (raw : str) : result pyval :=
  let stripped := strip raw in
  if negb (truthy (PStr stripped)) then raise (ValueError TEmptyMessage)
  else
    match json_loads stripped with
    | inl detail => raise (ValueError (TJSONDecode detail))
    | inr v => ok v
    end.
End Json.

(** What one [conn.recv(4096)] does: it returns some bytes, or fails with
    [socket.timeout] or another [OSError]. Once the script is exhausted
    the peer has closed and [recv] returns [b""]. *)
Inductive recv_event :=
| Data (chunk : bytes)
| RecvTimeout
| RecvError.

(** [buffer.find(b"\n")] *)
Fixpoint find_newline (buffer : bytes) : option nat :=
  match buffer with
  | [] => None
  | b :: rest =>
      if Byte.eqb b newline then Some O
      else match find_newline rest with
           | Some n => Some (S n)
           | None => None
           end
  end.

(** [data.decode("utf-8")] *)
Definition decode_utf8 (data : bytes) : result str :=
  match Utf8.decode data with
  | Some s => ok s
  | None => raise (ValueError (TUnicodeDecode data))
  end.

(** The branch of [recv_line] taken when [recv] returned [b""]. *)
Definition connection_closed (buffer : bytes) (conn : list recv_event)
  : result (option str) * bytes * list recv_event :=
  match buffer with
  | [] => (ok None, buffer, conn)
  | _ :: _ =>
      match decode_utf8 buffer with
      | inr line => (ok (Some line), [], conn)
      | inl e => (raise e, buffer, conn)
      end
  end.

(** [recv_line(conn, buffer, max_size)]: the value returned or the
    exception raised, the buffer and the rest of the connection's script
    afterwards. Each turn of the [while True] loop that does not leave the
    function consumes one [recv]. *)
Fixpoint recv_line (conn : list recv_event) (buffer : bytes) (max_size : Z)
  : result (option str) * bytes * list recv_event :=
  match find_newline buffer with
  | Some newline_pos =>
      match decode_utf8 (firstn newline_pos buffer) with
      | inr line => (ok (Some line), skipn (S newline_pos) buffer, conn)
      | inl e => (raise e, buffer, conn)
      end
  | None =>
      match conn with
      | [] => connection_closed buffer []
      | RecvTimeout :: conn' => (raise SocketTimeout, buffer, conn')
      | RecvError :: conn' => (raise OSError, buffer, conn')
      | Data [] :: conn' => connection_closed buffer conn'
      | Data chunk :: conn' =>
          let buffer := buffer ++ chunk in
          if Z.of_nat (List.length buffer) >? max_size then
            (raise (ValueError (TTooLarge max_size)), buffer, conn')
          else recv_line conn' buffer max_size
      end
  end.

End Protocol.

(* ================================================================== *)
(** ** server.py *)

Module Server.
Import Protocol.

(** A connected socket: the script of its [recv] calls, the script of its
    [sendall] calls ([Some e]: the call raises [e]; exhausted: the call
    succeeds), what was sent and whether it was closed. *)
Record connection := mk_connection {
  incoming : list recv_event;
  sendall_script : list (option exn);
  sent : list bytes;
  closed : bool
}.

Definition sendall (data : bytes) (c : connection) : result unit * connection :=
  match sendall_script c with
  | Some e :: script =>
      (raise e, mk_connection (incoming c) script (sent c) (closed c))
  | None :: script =>
      (ok tt, mk_connection (incoming c) script (sent c ++ [data]) (closed c))
  | [] =>
      (ok tt, mk_connection (incoming c) [] (sent c ++ [data]) (closed c))
  end.

Definition close (c : connection) : connection :=
  mk_connection (incoming c) (sendall_script c) (sent c) true.

(** The local state of [handle_client]: the socket and the variable
    [request_id], which the [except] clauses read. *)
Record frame := mk_frame {
  conn : connection;
  request_id : pyval
}.

Definition M (A : Type) := frame -> result A * frame.

Definition ret {A} (a : A) : M A := fun f => (ok a, f).
Definition lift {A} (r : result A) : M A := fun f => (r, f).
Definition mbind {A B} (c : M A) (k : A -> M B) : M B :=
  fun f =>
    match c f with
    | (inl e, f') => (inl e, f')
    | (inr a, f') => k a f'
    end.

Declare Scope handler_scope.
Delimit Scope handler_scope with handler.
Notation "x <~ c ;; k" := (mbind c (fun x => k))
  (at level 61, c at next level, right associativity) : handler_scope.
Notation "c ;;; k" := (mbind c (fun _ => k))
  (at level 61, right associativity) : handler_scope.

Definition set_request_id (v : pyval) : M unit :=
  fun f => (ok tt, mk_frame (conn f) v).

(** [recv_line(conn, buffer)] on the fresh buffer of the handler. *)
Definition read_message : M (option str) :=
  fun f =>
    let '(r, _, rest) := recv_line (incoming (conn f)) [] MAX_MESSAGE_SIZE in
    (r, mk_frame (mk_connection rest (sendall_script (conn f))
                    (sent (conn f)) (closed (conn f)))
          (request_id f)).

Definition send (data : bytes) : M unit :=
  fun f =>
    let '(r, c) := sendall data (conn f) in
    (r, mk_frame c (request_id f)).

(** The text of [str(e)] for the exceptions the parsing handler catches,
    [ValueError] and [KeyError]; it is not called on another one. *)
Definition exn_text (e : exn) : text :=
  match e with
  | ValueError t => t
  | KeyError key => TKey key
  | _ => TEmptyMessage
  end.

(** The [IngestResponse] built from the result of [validate_readings]. *)
Definition make_response (rid : pyval)
    (validated : list SensorReading.t * list ValidationError.t)
    (elapsed : pyfloat) : IngestResponse.t :=
  let '(accepted, errors) := validated in
  IngestResponse.mk rid (List.length accepted) (List.length errors)
    errors elapsed.

Section Handler.
Variable json_dumps : pyval -> str.
Variable json_loads : str -> str + pyval.
Variable fromisoformat_ok : str -> bool.
Variable render : text -> str.
(** The n-th [str(uuid.uuid4())] and [datetime.now().isoformat()] of
    the process, and the rounded processing time of the n-th exchange. *)
Variable uuid4 : nat -> str.
Variable now : nat -> str.
Variable elapsed_ms : nat -> pyfloat.

Local Open Scope handler_scope.

Definition error_payload (t : text) : pyval :=
  PDict [ (lit "message", PStr (render t)) ].

(** The body of the [try] statement of [handle_client]; [k] counts the
    calls of [build_message] made by the process so far. *)
Definition try_body (k : nat) : M unit :=
  line <~ read_message ;;
  match line with
  | None => ret tt
  | Some line =>
      msg <~ lift (decode_message json_loads line) ;;
      rid <~ lift (py_get msg (lit "request_id") (PStr (lit "unknown"))) ;;
      set_request_id rid ;;;
      msg_type <~ lift (py_get msg (lit "type") (PStr [])) ;;
      if negb (py_eq_str msg_type (lit "ingest_request")) then
        let error_resp :=
          build_message (uuid4 k) (now k) (lit "error")
            (error_payload (TUnsupportedType msg_type)) rid in
        data <~ lift (encode_message json_dumps error_resp) ;;
        send data
      else
        payload <~ lift (py_get msg (lit "payload") (PDict [])) ;;
        ingest_req <~ lift (IngestRequest.from_dict payload) ;;
        validated <~ lift (Validators.validate_readings fromisoformat_ok
                             (IngestRequest.readings ingest_req)) ;;
        let response := make_response rid validated (elapsed_ms k) in
        let resp_msg :=
          build_message (uuid4 k) (now k) (lit "ingest_response")
            (IngestResponse.to_dict render response) rid in
        data <~ lift (encode_message json_dumps resp_msg) ;;
        send data
  end.

(** The [except (ValueError, KeyError)] clause: the inner [try] lets
    only an [OSError] pass. *)
Definition parsing_handler (k : nat) (e : exn) (f : frame)
  : option exn * connection :=
  let err_msg :=
    build_message (uuid4 (S k)) (now (S k)) (lit "error")
      (error_payload (exn_text e)) (request_id f) in
  match (data <~ lift (encode_message json_dumps err_msg) ;; send data) f with
  | (inr _, f') => (None, conn f')
  | (inl e', f') => (if is_OSError e' then None else Some e', conn f')
  end.

(** [handle_client]: [None] when the call returns, [Some e] when the
    exception [e] leaves it; the socket is closed in both cases. *)
Definition handle_client (k : nat) (c : connection) : option exn * connection :=
  let '(r, f) := try_body k (mk_frame c (PStr (lit "unknown"))) in
  let '(escaped, c') :=
    match r with
    | inr _ => (None, conn f)
    | inl SocketTimeout => (None, conn f)
    | inl e =>
        if is_ValueError e || is_KeyError e then parsing_handler k e f
        else if is_OSError e then (None, conn f)
        else (Some e, conn f)
    end in
  (escaped, close c').

(** What [srv.accept()] does on one turn of the loop of [run_server]. *)
Inductive accept_event :=
| Accepted (c : connection)
| AcceptError
| KeyboardInterrupt.

Inductive server_state :=
| Listening
| Stopped
| Crashed (e : exn).

(** The [while True] loop of [run_server] over a script of [accept]
    calls: the state of the process after them and the sockets it
    handled. An exception that is not an [OSError] leaves the loop. *)
Fixpoint run_server (k : nat) (events : list accept_event)
  : server_state * list connection :=
  match events with
  | [] => (Listening, [])
  | KeyboardInterrupt :: _ => (Stopped, [])
  | AcceptError :: rest => run_server k rest
  | Accepted c :: rest =>
      match handle_client k c with
      | (None, c') =>
          let '(st, cs) := run_server (2 + k) rest in (st, c' :: cs)
      | (Some e, c') =>
          if is_OSError e then
            let '(st, cs) := run_server (2 + k) rest in (st, c' :: cs)
          else (Crashed e, [c'])
      end
  end.

End Handler.

End Server.


(* ================================================================== *)
(** ** models.py, the constructors of the receiving side

    [ValidationError.from_dict] and [IngestResponse.from_dict] rebuild the
    objects from a decoded payload. The dataclasses check nothing, so a
    rebuilt object holds whatever the dict holds: its fields are [pyval]s. *)

Module Received.

(** [v[key]] for a [str] key: a dict without the key raises [KeyError], and
    no other JSON value can be indexed by a [str]. *)
Definition py_getitem (v : pyval) (key : str) : result pyval :=
  match v with
  | PDict d =>
      match lookup d key with
      | Some x => ok x
      | None => raise (KeyError key)
      end
  | _ => raise TypeError
  end.

Record error := mk_error {
  sensor_id : pyval;
  field : pyval;
  message : pyval
}.

(** [ValidationError.from_dict] *)
Definition error_from_dict (d : pyval) : result error :=
  sid <- py_getitem d (lit "sensor_id") ;;
  f <- py_getitem d (lit "field") ;;
  m <- py_getitem d (lit "message") ;;
  ok (mk_error sid f m).

Record response := mk_response {
  request_id : pyval;
  accepted_count : pyval;
  rejected_count : pyval;
  errors : list error;
  processing_time_ms : pyval
}.

(** [IngestResponse.from_dict]: the comprehension over [errors] runs
    first. *)
Definition response_from_dict (d : pyval) : result response :=
  raw <- py_get d (lit "errors") (PList []) ;;
  items <- py_iter raw ;;
  errs <- map_result error_from_dict items ;;
  rid <- py_getitem d (lit "request_id") ;;
  acc <- py_getitem d (lit "accepted_count") ;;
  rej <- py_getitem d (lit "rejected_count") ;;
  ms <- py_get d (lit "processing_time_ms") (PFloat (FFin 0)) ;;
  ok (mk_response rid acc rej errs ms).

End Received.

(* ================================================================== *)
(** ** client.py *)

Module Client.
Import Protocol.

(** The socket of the client: what [connect] does ([Some e]: it raises
    [e], a refusal or a reset being an [OSError]), then a connection as on
    the server side. *)
Record socket := mk_socket {
  connect_error : option exn;
  link : Server.connection
}.

(** The request [main] builds from the readings [load_readings] returned. *)
Definition build_request (uuid4 now : str) (raw_readings : pyval) : result pyval :=
  items <- py_iter raw_readings ;;
  readings <- map_result SensorReading.from_dict items ;;
  let ingest_req := IngestRequest.mk (PStr (lit "station_agri_01")) readings in
  ok (build_message uuid4 now (lit "ingest_request")
        (IngestRequest.to_dict ingest_req) PNone).

Section Request.
Variable json_dumps : pyval -> str.
Variable json_loads : str -> str + pyval.

(** The body of the [with] block of [send_ingest_request]. *)
Definition with_socket (request_msg : pyval) (s : socket)
  : result (option pyval) * Server.connection :=
  match connect_error s with
  | Some e => (raise e, link s)
  | None =>
      match encode_message json_dumps request_msg with
      | inl e => (inl e, link s)
      | inr payload_bytes =>
          match Server.sendall payload_bytes (link s) with
          | (inl e, c) => (inl e, c)
          | (inr _, c) =>
              let '(r, _, rest) :=
                recv_line (Server.incoming c) [] MAX_MESSAGE_SIZE in
              let c' :=
                Server.mk_connection rest (Server.sendall_script c)
                  (Server.sent c) (Server.closed c) in
              match r with
              | inl e => (inl e, c')
              | inr None => (ok None, c')
              | inr (Some line) =>
                  match decode_message json_loads line with
                  | inl e => (inl e, c')
                  | inr response =>
                      (* the argument [response.get("type")] of the log call *)
                      match py_get response (lit "type") PNone with
                      | inl e => (inl e, c')
                      | inr _ => (ok (Some response), c')
                      end
                  end
              end
          end
      end
  end.

(** [send_ingest_request]: the response, [None] when there is none, or the
    exception that leaves the call. [request_msg.get] runs before the socket
    exists; the four [except] clauses catch the [OSError]s and the [with]
    block closes the socket. *)
Definition send_ingest_request (request_msg : pyval) (s : socket)
  : result (option pyval) * Server.connection :=
  match py_get request_msg (lit "request_id") (PStr (lit "?")) with
  | inl e => (inl e, link s)
  | inr _ =>
      let '(r, c) := with_socket request_msg s in
      let c := Server.close c in
      match r with
      | inr response => (ok response, c)
      | inl e => if is_OSError e then (ok None, c) else (inl e, c)
      end
  end.

End Request.

End Client.
(* ================================================================== *)
(** * Vocabulary of the properties *)

(** ** Validation *)

Definition has_field (f : string) (e : ValidationError.t) : bool :=
  str_eqb (ValidationError.field e) (lit f).

Definition count_field (f : string) (errs : list ValidationError.t) : nat :=
  List.length (filter (has_field f) errs).

Definition has_value_error (errs : list ValidationError.t) : bool :=
  existsb (has_field "value") errs.

Definition is_range_error (e : ValidationError.t) : bool :=
  match ValidationError.message e with
  | TOutOfRange _ _ _ _ => true
  | _ => false
  end.

Definition is_non_numeric_error (e : ValidationError.t) : bool :=
  match ValidationError.message e with
  | TNonNumeric _ => true
  | _ => false
  end.

Definition is_str (v : pyval) : bool :=
  match v with PStr _ => true | _ => false end.

Definition is_none (v : pyval) : bool :=
  match v with PNone => true | _ => false end.

Definition is_nil {A} (l : list A) : bool :=
  match l with [] => true | _ => false end.

(** The field types the dataclass [SensorReading] declares ([value] is an
    [object]; an [int] is accepted where a [float] is announced). The
    constructor does not enforce them. *)
Definition declared_types (r : SensorReading.t) : bool :=
  is_str (SensorReading.sensor_id r)
  && is_str (SensorReading.type r)
  && is_str (SensorReading.unit r)
  && is_str (SensorReading.timestamp r)
  && (is_none (SensorReading.pump_status r) || is_str (SensorReading.pump_status r))
  && (is_none (SensorReading.irrigation_mm r)
      || is_int_or_float (SensorReading.irrigation_mm r)).

Definition with_type (r : SensorReading.t) (ty : pyval) : SensorReading.t :=
  SensorReading.mk (SensorReading.sensor_id r) ty (SensorReading.value r)
    (SensorReading.unit r) (SensorReading.timestamp r)
    (SensorReading.pump_status r) (SensorReading.irrigation_mm r).

Definition with_value (r : SensorReading.t) (v : pyval) : SensorReading.t :=
  SensorReading.mk (SensorReading.sensor_id r) (SensorReading.type r) v
    (SensorReading.unit r) (SensorReading.timestamp r)
    (SensorReading.pump_status r) (SensorReading.irrigation_mm r).

(** The four blocks of [validate_single_reading], one by one. *)
Definition sid_of (r : SensorReading.t) : pyval :=
  py_or (SensorReading.sensor_id r) (PStr (lit "(vide)")).

Definition sensor_id_blank (r : SensorReading.t) : result bool :=
  if negb (truthy (SensorReading.sensor_id r)) then ok true
  else s <- py_strip (SensorReading.sensor_id r) ;;
       ok (negb (truthy (PStr s))).

Definition sensor_id_errors (r : SensorReading.t) (blank : bool) :=
  if blank then [Validators.error (sid_of r) "sensor_id" TSensorIdRequired] else [].

Definition value_errors (r : SensorReading.t) : result (list ValidationError.t) :=
  if negb (is_int_or_float (SensorReading.value r)) then
    ok [Validators.error (sid_of r) "value" (TNonNumeric (SensorReading.value r))]
  else
    range_tuple <- Validators.ranges_get (SensorReading.type r) ;;
    match range_tuple, number_of (SensorReading.value r) with
    | Some (vmin, vmax), Some v =>
        if negb (fle vmin v && fle v vmax) then
          ok [Validators.error (sid_of r) "value"
                (TOutOfRange (SensorReading.value r) vmin vmax
                   (SensorReading.type r))]
        else ok []
    | _, _ => ok []
    end.

Definition timestamp_errors (fromisoformat_ok : str -> bool) (r : SensorReading.t)
  : list ValidationError.t :=
  if Validators.timestamp_parses fromisoformat_ok (SensorReading.timestamp r) then []
  else [Validators.error (sid_of r) "timestamp"
          (TBadTimestamp (SensorReading.timestamp r))].

Definition pump_inconsistent (r : SensorReading.t) : result bool :=
  if py_eq_str (SensorReading.pump_status r) (lit "OFF") then
    match SensorReading.irrigation_mm r with
    | PNone => ok false
    | irr => py_gt_zero irr
    end
  else ok false.

Definition pump_errors (r : SensorReading.t) (inconsistent : bool) :=
  if inconsistent then
    [Validators.error (sid_of r) "pump_status"
       (TPumpOff (SensorReading.irrigation_mm r))]
  else [].

(** The readings of a batch that got no error, given the errors of each,
    and the number of readings that got at least one. *)
Fixpoint accepted_of (rs : list SensorReading.t) (ess : list (list ValidationError.t))
  : list SensorReading.t :=
  match rs, ess with
  | r :: rs', es :: ess' =>
      if is_nil es then r :: accepted_of rs' ess' else accepted_of rs' ess'
  | _, _ => []
  end.

Definition rejected_readings (ess : list (list ValidationError.t)) : nat :=
  List.length (filter (fun es => negb (is_nil es)) ess).

(** A batch of one reading with a blank [sensor_id] and a temperature out
    of range. *)
Definition two_error_batch : list SensorReading.t :=
  [ SensorReading.mk (PStr []) (PStr (lit "temperature")) (PFloat (FFin (-999)))
      (PStr [176; 67]%N) (PStr (lit "2026-02-23T10:00:00")) PNone PNone ].

(** The valid temperature reading of the demonstration. *)
Definition sample_reading : SensorReading.t :=
  SensorReading.mk (PStr (lit "t01")) (PStr (lit "temperature")) (PFloat (FFin 22))
    (PStr [176; 67]%N) (PStr (lit "2026-02-23T10:00:00")) PNone PNone.

(** The same reading with the float NaN as value, as [json.loads] yields
    for the literal [NaN]. *)
Definition nan_reading : SensorReading.t := with_value sample_reading (PFloat FNaN).

(** ** Framing *)

(** [recv] reports that the peer has closed: the script is exhausted or its
    next entry is an empty read. *)
Definition peer_closed (conn : list Protocol.recv_event) : bool :=
  match conn with
  | [] | Protocol.Data [] :: _ => true
  | _ => false
  end.

(** How a sequence of reads ended. *)
Inductive ending :=
| EndOfStream
| Raised (e : exn)
| OutOfFuel.

(** [recv_line] called again and again on one connection and one buffer,
    until it returns [None] or raises. *)
Fixpoint read_lines (fuel : nat) (conn : list Protocol.recv_event) (buffer : bytes)
    (max_size : Z) : list str * ending :=
  match fuel with
  | O => ([], OutOfFuel)
  | S fuel' =>
      match Protocol.recv_line conn buffer max_size with
      | (inl e, _, _) => ([], Raised e)
      | (inr None, _, _) => ([], EndOfStream)
      | (inr (Some line), buffer', conn') =>
          let '(lines, e) := read_lines fuel' conn' buffer' max_size in
          (line :: lines, e)
      end
  end.

Definition received (conn : list Protocol.recv_event) : bytes :=
  List.concat
    (List.map (fun ev => match ev with Protocol.Data c => c | _ => [] end) conn).

(** Every line returned takes at least one byte out of what was received,
    so this many calls are enough. *)
Definition decoded_lines (conn : list Protocol.recv_event) (max_size : Z)
  : list str * ending :=
  read_lines (S (List.length (received conn))) conn [] max_size.

(** The lines of a byte stream: the pieces between newlines, and the
    unterminated remainder if it is not empty. *)
Fixpoint split_lines (current stream : bytes) : list bytes :=
  match stream with
  | [] => match current with [] => [] | _ => [current] end
  | b :: stream' =>
      if Byte.eqb b Protocol.newline then current :: split_lines [] stream'
      else split_lines (current ++ [b]) stream'
  end.

Fixpoint decode_all (lines : list bytes) : list str * ending :=
  match lines with
  | [] => ([], EndOfStream)
  | l :: lines' =>
      match Utf8.decode l with
      | Some s => let '(ss, e) := decode_all lines' in (s :: ss, e)
      | None => ([], Raised (ValueError (TUnicodeDecode l)))
      end
  end.

Definition stream_lines (stream : bytes) : list str * ending :=
  decode_all (split_lines [] stream).

(** Every message of the stream is at most [max_size] bytes long. *)
Definition messages_within (max_size : Z) (stream : bytes) : bool :=
  forallb (fun l => Z.of_nat (List.length l) <=? max_size) (split_lines [] stream).

(** Two messages, [abc] and [de], each ended by a newline. *)
Definition two_messages : bytes := [x61; x62; x63; x0a; x64; x65; x0a].
Definition two_messages_chunked : list bytes :=
  [ [x61; x62; x63; x0a]; [x64; x65; x0a] ].

(** ** Envelopes *)

Definition envelope_request_id (msg : pyval) : result pyval :=
  py_get msg (lit "request_id") PNone.

(** A text that [json.dumps] produces for a dict opens with a brace and
    ends with one. *)
Definition braced (line : str) : Prop :=
  exists body, line = 123%N :: body ++ [125%N].

(** The code points [str.encode("utf-8")] accepts. *)
Definition scalar_value (c : codepoint) : bool :=
  ((c <? 1114112) && negb (Utf8.is_surrogate c))%N.

(** ** Exchange handler *)

Definition with_incoming (c : Server.connection) (rest : list Protocol.recv_event)
  : Server.connection :=
  Server.mk_connection rest (Server.sendall_script c) (Server.sent c)
    (Server.closed c).

Definition unknown : pyval := PStr (lit "unknown").

Definition is_dict (v : pyval) : bool :=
  match v with PDict _ => true | _ => false end.

(** The request line [[]]: valid JSON that is not an object. *)
Definition array_line : bytes := [x5b; x5d; x0a].

Definition array_connection : Server.connection :=
  Server.mk_connection [Protocol.Data array_line] [] [] false.

(** The envelope of an [ingest_request] that carries [two_error_batch]. *)
Definition two_error_request : pyval :=
  PDict [ (lit "version", PStr (lit "v1"));
          (lit "type", PStr (lit "ingest_request"));
          (lit "request_id", PStr (lit "r-2"));
          (lit "sent_at", PStr (lit "2026-02-23T10:00:00"));
          (lit "payload",
            IngestRequest.to_dict
              (IngestRequest.mk (PStr (lit "station_agri_01")) two_error_batch)) ].

(** An [ingest_request] whose reading reports the pump off and carries a
    string as [irrigation_mm]. *)
Definition pump_off_request : pyval :=
  PDict [ (lit "version", PStr (lit "v1"));
          (lit "type", PStr (lit "ingest_request"));
          (lit "request_id", PStr (lit "r-1"));
          (lit "sent_at", PStr (lit "2026-02-23T10:00:00"));
          (lit "payload",
            PDict [ (lit "source", PStr (lit "station_agri_01"));
                    (lit "readings",
                      PList [ PDict [ (lit "sensor_id", PStr (lit "i01"));
                                      (lit "type", PStr (lit "irrigation"));
                                      (lit "value", PFloat (FFin 5));
                                      (lit "unit", PStr (lit "mm"));
                                      (lit "timestamp", PStr (lit "2026-02-23T10:00:00"));
                                      (lit "pump_status", PStr (lit "OFF"));
                                      (lit "irrigation_mm", PStr (lit "abc")) ] ]) ]) ].

(* ================================================================== *)
(** * Vocabulary, continued *)

(** The object [from_dict] rebuilds from what [to_dict] wrote. *)
Definition received_error (render : text -> str) (e : ValidationError.t)
  : Received.error :=
  Received.mk_error (ValidationError.sensor_id e) (PStr (ValidationError.field e))
    (PStr (render (ValidationError.message e))).

Definition received_response (render : text -> str) (r : IngestResponse.t)
  : Received.response :=
  Received.mk_response (IngestResponse.request_id r)
    (PInt (Z.of_nat (IngestResponse.accepted_count r)))
    (PInt (Z.of_nat (IngestResponse.rejected_count r)))
    (List.map (received_error render) (IngestResponse.errors r))
    (PFloat (IngestResponse.processing_time_ms r)).

Definition has_key (d : list (str * pyval)) (key : string) : bool :=
  match lookup d (lit key) with Some _ => true | None => false end.

(** The JSON values a [for] loop cannot iterate. *)
Definition not_iterable (v : pyval) : bool :=
  match v with
  | PNone | PBool _ | PInt _ | PFloat _ => true
  | _ => false
  end.

(** The names of the fields of a list of errors, in order. *)
Definition fields_of (errs : list ValidationError.t) : list str :=
  List.map ValidationError.field errs.

Definition only_if (b : bool) (f : string) : list str :=
  if b then [lit f] else [].

(** [pump_status == "OFF" and irrigation_mm is not None and irrigation_mm > 0]
    for a numeric or absent [irrigation_mm]. *)
Definition pump_off_while_irrigating (r : SensorReading.t) : bool :=
  py_eq_str (SensorReading.pump_status r) (lit "OFF")
  && match number_of (SensorReading.irrigation_mm r) with
     | Some f => flt (FFin 0) f
     | None => false
     end.

(** [vmin <= value <= vmax] for the range of the type, when it has one. *)
Definition within_range (r : SensorReading.t) : bool :=
  match SensorReading.type r, number_of (SensorReading.value r) with
  | PStr t, Some v =>
      match Validators.assoc Validators.VALUE_RANGES t with
      | Some (vmin, vmax) => fle vmin v && fle v vmax
      | None => true
      end
  | _, _ => true
  end.

Definition blank (v : pyval) : bool :=
  match v with
  | PStr s => is_nil (strip s)
  | _ => negb (truthy v)
  end.

(** The next [sendall] on the socket succeeds. *)
Definition send_succeeds (c : Server.connection) : bool :=
  match Server.sendall_script c with
  | Some _ :: _ => false
  | _ => true
  end.

(** The next [sendall] on the socket succeeds or raises an [OSError]. *)
Definition send_fails_softly (c : Server.connection) : bool :=
  match Server.sendall_script c with
  | Some e :: _ => is_OSError e
  | _ => true
  end.

(** The socket once the handler has read up to [rest], made its one
    [sendall] call with [data] and closed. *)
Definition answered (c : Server.connection) (rest : list Protocol.recv_event)
    (data : bytes) : Server.connection :=
  Server.close (snd (Server.sendall data (with_incoming c rest))).

Definition accepted_events (events : list Server.accept_event) : nat :=
  List.length
    (filter (fun ev => match ev with Server.Accepted _ => true | _ => false end)
       events).

(** [recv_line] raised the error of a message over the size limit. *)
Definition is_too_large (r : result (option str)) : bool :=
  match r with
  | inl (ValueError (TTooLarge _)) => true
  | _ => false
  end.

(** A reading whose identifier is the number 7. *)
Definition numeric_id_reading : SensorReading.t :=
  SensorReading.mk (PInt 7) (PStr (lit "temperature")) PNone
    (PStr [176; 67]%N) (PStr (lit "2026-02-23T10:00:00")) PNone PNone.

(** ** A payload that cannot be encoded *)




(* ================================================================== *)
(** * Properties of the validation engine *)

Import Validators.

(** [validate_single_reading] is its four blocks in sequence. *)
Lemma validate_single_reading_blocks iso (r : SensorReading.t) :
  validate_single_reading iso r =
  (blank <- sensor_id_blank r ;;
   vs <- value_errors r ;;
   inconsistent <- pump_inconsistent r ;;
   ok (sensor_id_errors r blank ++ vs ++ timestamp_errors iso r
       ++ pump_errors r inconsistent)).
Proof.
  unfold validate_single_reading, sensor_id_blank, value_errors,
    pump_inconsistent, sensor_id_errors, timestamp_errors, pump_errors, sid_of.
  set (sid := py_or (SensorReading.sensor_id r) (PStr (lit "(vide)"))).
  destruct (if negb (truthy (SensorReading.sensor_id r)) then _ else _)
    as [e|blank]; [reflexivity|].
  cbn [bind].
  set (pump := if py_eq_str (SensorReading.pump_status r) (lit "OFF") then _ else _).
  set (x := error sid "pump_status" (TPumpOff (SensorReading.irrigation_mm r))).
  assert (tail : forall errs,
    (inconsistent <- pump ;; ok (if inconsistent then errs ++ [x] else errs))
    = (inconsistent <- pump ;; ok (errs ++ (if inconsistent then [x] else [])))).
  { intros errs. destruct pump as [e|[|]]; cbn [bind ok]; rewrite ?app_nil_r;
      reflexivity. }
  destruct (negb (is_int_or_float (SensorReading.value r))).
  - cbn [bind ok]. rewrite tail.
    destruct blank, (timestamp_parses iso (SensorReading.timestamp r)); reflexivity.
  - destruct (ranges_get (SensorReading.type r)) as [e|[[vmin vmax]|]];
      [reflexivity| |];
      cbn [bind];
      [destruct (number_of (SensorReading.value r)) as [v|];
       [destruct (negb (fle vmin v && fle v vmax))|]|];
      cbn [bind ok]; rewrite tail;
      destruct blank, (timestamp_parses iso (SensorReading.timestamp r));
      reflexivity.
Qed.

Lemma validate_single_reading_inv iso r errs :
  validate_single_reading iso r = inr errs ->
  exists blank vs inconsistent,
    sensor_id_blank r = inr blank /\ value_errors r = inr vs
    /\ pump_inconsistent r = inr inconsistent
    /\ errs = sensor_id_errors r blank ++ vs ++ timestamp_errors iso r
              ++ pump_errors r inconsistent.
Proof.
  rewrite validate_single_reading_blocks.
  destruct (sensor_id_blank r) as [e|blank]; [discriminate|].
  destruct (value_errors r) as [e|vs]; [discriminate|].
  destruct (pump_inconsistent r) as [e|inc]; [discriminate|].
  cbn. intros [= <-]. exists blank, vs, inc. auto.
Qed.

Lemma count_field_app f a b :
  count_field f (a ++ b) = (count_field f a + count_field f b)%nat.
Proof. unfold count_field. rewrite filter_app, length_app. reflexivity. Qed.

Lemma count_sensor_id_errors f r blank :
  f <> "sensor_id"%string ->
  (f = "value" \/ f = "timestamp" \/ f = "pump_status")%string ->
  count_field f (sensor_id_errors r blank) = 0%nat.
Proof. intros _ [->|[->| ->]]; destruct blank; reflexivity. Qed.

Lemma count_value_timestamp_errors iso r :
  count_field "value" (timestamp_errors iso r) = 0%nat.
Proof. unfold timestamp_errors. destruct timestamp_parses; reflexivity. Qed.

Lemma count_value_pump_errors r inc :
  count_field "value" (pump_errors r inc) = 0%nat.
Proof. destruct inc; reflexivity. Qed.

Lemma count_value_errors iso r errs :
  validate_single_reading iso r = inr errs ->
  exists vs, value_errors r = inr vs /\ count_field "value" errs = List.length vs
     /\ existsb is_range_error errs = existsb is_range_error vs
     /\ existsb is_non_numeric_error errs = existsb is_non_numeric_error vs.
Proof.
  intros H. apply validate_single_reading_inv in H.
  destruct H as (blank & vs & inc & _ & Hv & _ & ->). exists vs. split; [exact Hv|].
  assert (Hall : forallb (has_field "value") vs = true).
  { revert Hv. unfold value_errors.
    destruct (negb (is_int_or_float _)); [intros [= <-]; reflexivity|].
    destruct (ranges_get _) as [e|[[vmin vmax]|]]; cbn; try discriminate.
    - destruct (number_of _); [destruct (negb _)|]; intros [= <-]; reflexivity.
    - intros [= <-]. reflexivity. }
  repeat split.
  - rewrite !count_field_app, count_value_timestamp_errors, count_value_pump_errors.
    rewrite count_sensor_id_errors by (auto; discriminate).
    unfold count_field. rewrite <- plus_n_O. cbn [plus]. f_equal.
    clear -Hall. induction vs as [|v vs IH]; [reflexivity|].
    cbn in *. apply andb_prop in Hall. destruct Hall as [-> Hall]. rewrite IH; auto.
  - rewrite !existsb_app. unfold timestamp_errors.
    destruct blank, inc, (timestamp_parses iso _); cbn; rewrite ?orb_false_r; reflexivity.
  - rewrite !existsb_app. unfold timestamp_errors.
    destruct blank, inc, (timestamp_parses iso _); cbn; rewrite ?orb_false_r; reflexivity.
Qed.

Lemma declared_types_completes iso r :
  declared_types r = true -> exists errs, validate_single_reading iso r = inr errs.
Proof.
  unfold declared_types. intros H.
  repeat (apply andb_prop in H; destruct H as [H ?]).
  rewrite validate_single_reading_blocks.
  destruct r as [sid ty v u ts ps irr]; cbn in *.
  destruct sid; try discriminate. destruct ty; try discriminate.
  set (r := SensorReading.mk (PStr s) (PStr s0) v u ts ps irr).
  assert (Hb : exists b, sensor_id_blank r = inr b).
  { unfold sensor_id_blank, r; cbn. destruct s; cbn; eauto. }
  destruct Hb as [b ->]. cbn [bind].
  assert (Hv : exists vs, value_errors r = inr vs).
  { unfold value_errors, ranges_get, r.
    cbn [SensorReading.value SensorReading.type hashable bind ok].
    destruct (negb (is_int_or_float v)); eauto.
    destruct (assoc VALUE_RANGES s0) as [[vmin vmax]|]; eauto.
    destruct (number_of v) as [x|]; eauto.
    destruct (negb (fle vmin x && fle x vmax)); eauto. }
  destruct Hv as [vs ->]. cbn [bind].
  assert (Hp : exists p, pump_inconsistent r = inr p).
  { unfold pump_inconsistent, r; cbn. destruct (py_eq_str ps _); eauto.
    destruct irr; cbn in *; try discriminate; eauto. }
  destruct Hp as [p ->]. cbn. eauto.
Qed.

(** C3. A reading whose value is not a number gets exactly one error on
    the field [value], the one of the numeric-ness check, and the range
    check is not performed: no range error is emitted and the outcome does
    not depend on the reading's [type]. Validation returns for every
    reading that has the declared field types. *)
Theorem non_numeric_value_single_error iso r :
  is_int_or_float (SensorReading.value r) = false ->
  (declared_types r = true -> exists errs, validate_single_reading iso r = inr errs)
  /\ (forall errs, validate_single_reading iso r = inr errs ->
        count_field "value" errs = 1%nat
        /\ existsb is_non_numeric_error errs = true
        /\ existsb is_range_error errs = false)
  /\ (forall ty, validate_single_reading iso (with_type r ty)
                 = validate_single_reading iso r).
Proof.
  intros Hnum. split; [apply declared_types_completes|]. split.
  - intros errs H. apply count_value_errors in H.
    destruct H as (vs & Hv & -> & -> & ->).
    unfold value_errors in Hv. rewrite Hnum in Hv. cbn in Hv.
    injection Hv as <-. auto.
  - intros ty. rewrite !validate_single_reading_blocks.
    unfold value_errors. cbn [with_type SensorReading.value]. rewrite Hnum.
    destruct r; reflexivity.
Qed.

Lemma non_numeric_value_single_error_witness :
  let r := with_value sample_reading (PStr (lit "abc")) in
  is_int_or_float (SensorReading.value r) = false
  /\ (forall errs, validate_single_reading (fun _ => true) r = inr errs ->
        count_field "value" errs = 1%nat
        /\ existsb is_non_numeric_error errs = true
        /\ existsb is_range_error errs = false).
Proof.
  split; [reflexivity|].
  exact (proj1 (proj2 (non_numeric_value_single_error (fun _ => true)
                         (with_value sample_reading (PStr (lit "abc"))) eq_refl))).
Defined.

Lemma fle_flt a b : a <> FNaN -> b <> FNaN -> fle a b = negb (flt b a).
Proof.
  destruct a as [|[|]|x], b as [|[|]|y]; intros Ha Hb; try congruence; cbn;
    try reflexivity.
  rewrite negb_involutive. reflexivity.
Qed.

Lemma VALUE_RANGES_finite t vmin vmax :
  assoc VALUE_RANGES t = Some (vmin, vmax) ->
  vmin <> FNaN /\ vmax <> FNaN
  /\ fle vmin (FFin (inject_Z 0)) && fle (FFin (inject_Z 0)) vmax = true
  /\ fle vmin (FFin (inject_Z 1)) && fle (FFin (inject_Z 1)) vmax = true.
Proof.
  unfold VALUE_RANGES. cbn [assoc].
  repeat (destruct (str_eqb _ t);
          [intros [= <- <-]; repeat split; (discriminate || reflexivity)|]).
  discriminate.
Qed.

Lemma ranges_get_Some ty vmin vmax :
  ranges_get ty = inr (Some (vmin, vmax)) ->
  exists t, ty = PStr t /\ assoc VALUE_RANGES t = Some (vmin, vmax).
Proof.
  unfold ranges_get. destruct ty; cbn; try discriminate.
  intros [= H]. eauto.
Qed.

Lemma has_value_error_count errs :
  has_value_error errs = negb (Nat.eqb (count_field "value" errs) 0).
Proof.
  unfold has_value_error, count_field.
  induction errs as [|e errs IH]; [reflexivity|].
  cbn. destruct (has_field "value" e); cbn; auto.
Qed.

(** C4, amended. For a numeric value [v] and a type of the range table, an
    error on the field [value] is emitted exactly when [vmin <= v <= vmax]
    does not hold; for every value but NaN this is exactly when [v] is
    strictly below [vmin] or strictly above [vmax], so the two bounds are
    accepted; NaN is always rejected. For a type absent from the table no
    error on [value] is emitted. *)
Theorem range_check_inclusive iso r v :
  number_of (SensorReading.value r) = Some v ->
  (declared_types r = true -> exists errs, validate_single_reading iso r = inr errs)
  /\ (forall errs, validate_single_reading iso r = inr errs ->
      (forall vmin vmax,
          ranges_get (SensorReading.type r) = inr (Some (vmin, vmax)) ->
          (has_value_error errs = true <-> fle vmin v && fle v vmax = false)
          /\ (v <> FNaN ->
              (has_value_error errs = true <-> flt v vmin = true \/ flt vmax v = true))
          /\ (v = FNaN -> has_value_error errs = true))
      /\ (ranges_get (SensorReading.type r) = inr None ->
          has_value_error errs = false)).
Proof.
  intros Hv. split; [apply declared_types_completes|].
  intros errs H. apply count_value_errors in H.
  destruct H as (vs & Hvs & Hc & _ & _).
  rewrite has_value_error_count, Hc. clear Hc.
  assert (Hnum : is_int_or_float (SensorReading.value r) = true).
  { destruct (SensorReading.value r); try discriminate; reflexivity. }
  unfold value_errors in Hvs. rewrite Hnum, Hv in Hvs. cbn [negb] in Hvs.
  split.
  - intros vmin vmax Hr. rewrite Hr in Hvs. cbn [bind] in Hvs.
    assert (Hin : negb (Nat.eqb (List.length vs) 0) = negb (fle vmin v && fle v vmax)).
    { destruct (fle vmin v && fle v vmax); injection Hvs as <-; reflexivity. }
    rewrite Hin. clear Hin Hvs.
    apply ranges_get_Some in Hr. destruct Hr as (t & _ & Ht).
    apply VALUE_RANGES_finite in Ht. destruct Ht as (Hmin & Hmax & _).
    split; [|split].
    + rewrite negb_true_iff. tauto.
    + intros Hn. rewrite (fle_flt Hmin Hn), (fle_flt Hn Hmax).
      rewrite negb_andb, !negb_involutive, orb_true_iff. tauto.
    + intros ->. destruct vmin as [|[|]|]; reflexivity.
  - intros Hr. rewrite Hr in Hvs. injection Hvs as <-. reflexivity.
Qed.

Lemma range_check_inclusive_witness :
  let r := with_value sample_reading (PFloat (FFin 60)) in
  number_of (SensorReading.value r) = Some (FFin 60)
  /\ (forall errs, validate_single_reading (fun _ => true) r = inr errs ->
        has_value_error errs = true
        <-> flt (FFin 60) (FFin (-50)) = true \/ flt (FFin 60) (FFin 60) = true).
Proof.
  split; [reflexivity|]. intros errs H.
  destruct (range_check_inclusive (fun _ => true)
              (with_value sample_reading (PFloat (FFin 60))) eq_refl) as [_ R].
  destruct (R errs H) as [R1 _].
  destruct (R1 (FFin (-50)) (FFin 60) eq_refl) as (_ & R2 & _).
  apply R2. discriminate.
Defined.

(** Counterexample to C4 as first stated: on NaN the range error is
    emitted although NaN is neither strictly below the minimum nor strictly
    above the maximum. *)
Lemma nan_is_rejected_by_range_check :
  is_int_or_float (SensorReading.value nan_reading) = true
  /\ number_of (SensorReading.value nan_reading) = Some FNaN
  /\ ranges_get (SensorReading.type nan_reading) = inr (Some (FFin (-50), FFin 60))
  /\ validate_single_reading (fun _ => true) nan_reading
     = inr [error (PStr (lit "t01")) "value"
              (TOutOfRange (PFloat FNaN) (FFin (-50)) (FFin 60)
                 (PStr (lit "temperature")))]
  /\ ~ (flt FNaN (FFin (-50)) = true \/ flt (FFin 60) FNaN = true).
Proof.
  repeat split; try reflexivity. intros [H|H]; discriminate H.
Qed.

(** C9. A boolean value passes the numeric-ness check and is range-checked
    as the integer 1 or 0: validation gives what it gives for that integer,
    and no error on the field [value] comes out of it. *)
Theorem bool_value_is_numeric iso r b :
  SensorReading.value r = PBool b ->
  is_int_or_float (SensorReading.value r) = true
  /\ number_of (SensorReading.value r) = number_of (PInt (if b then 1 else 0))
  /\ validate_single_reading iso r
     = validate_single_reading iso (with_value r (PInt (if b then 1 else 0)))
  /\ (forall errs, validate_single_reading iso r = inr errs ->
        has_value_error errs = false)
  /\ (declared_types r = true -> exists errs, validate_single_reading iso r = inr errs).
Proof.
  intros Hb.
  assert (Hval :
    value_errors r = (range_tuple <- ranges_get (SensorReading.type r) ;; ok [])
    /\ value_errors (with_value r (PInt (if b then 1 else 0)))
       = (range_tuple <- ranges_get (SensorReading.type r) ;; ok [])).
  { unfold value_errors. cbn [with_value SensorReading.value SensorReading.type].
    rewrite Hb. cbn [is_int_or_float negb number_of].
    destruct (ranges_get (SensorReading.type r)) as [e|[[vmin vmax]|]] eqn:Hr;
      cbn [bind]; auto.
    apply ranges_get_Some in Hr. destruct Hr as (t & _ & Ht).
    apply VALUE_RANGES_finite in Ht. destruct Ht as (_ & _ & H0 & H1).
    destruct b; cbn [Z.b2z]; rewrite ?H0, ?H1; auto. }
  destruct Hval as [Hv1 Hv2].
  split; [rewrite Hb; reflexivity|].
  split; [rewrite Hb; destruct b; reflexivity|].
  split; [|split; [|apply declared_types_completes]].
  - rewrite !validate_single_reading_blocks, Hv1, Hv2.
    destruct r; reflexivity.
  - intros errs H. apply count_value_errors in H.
    destruct H as (vs & Hvs & Hc & _).
    rewrite has_value_error_count, Hc. rewrite Hv1 in Hvs.
    destruct (ranges_get (SensorReading.type r)); [discriminate|].
    injection Hvs as <-. reflexivity.
Qed.

Lemma bool_value_is_numeric_witness :
  let r := with_value sample_reading (PBool true) in
  SensorReading.value r = PBool true
  /\ (forall errs, validate_single_reading (fun _ => true) r = inr errs ->
        has_value_error errs = false).
Proof.
  split; [reflexivity|].
  exact (proj1 (proj2 (proj2 (proj2
           (bool_value_is_numeric (fun _ => true)
              (with_value sample_reading (PBool true)) eq_refl))))).
Defined.

Lemma validate_loop_spec iso rs : forall acc errs acc' errs',
  validate_loop iso rs acc errs = inr (acc', errs') ->
  exists ess, map_result (validate_single_reading iso) rs = inr ess
    /\ acc' = acc ++ accepted_of rs ess /\ errs' = errs ++ List.concat ess.
Proof.
  induction rs as [|r rs IH]; intros acc errs acc' errs'; cbn [validate_loop map_result].
  - intros [= <- <-]. exists []. cbn. rewrite !app_nil_r. auto.
  - destruct (validate_single_reading iso r) as [e|es]; [discriminate|]. cbn [bind].
    destruct es as [|e es]; intros H; apply IH in H; destruct H as (ess & -> & -> & ->);
      cbn [bind ok].
    + exists ([] :: ess). cbn. rewrite <- app_assoc. auto.
    + exists ((e :: es) :: ess). cbn [accepted_of is_nil List.concat].
      rewrite <- app_assoc. auto.
Qed.

Lemma accepted_rejected_total rs : forall ess,
  List.length rs = List.length ess ->
  (List.length (accepted_of rs ess) + rejected_readings ess = List.length rs)%nat.
Proof.
  unfold rejected_readings.
  induction rs as [|r rs IH]; intros [|es ess]; cbn; try discriminate; auto.
  intros [= H]. specialize (IH _ H). destruct es; cbn; lia.
Qed.

Lemma map_result_length A B (f : A -> result B) l : forall l',
  map_result f l = inr l' -> List.length l' = List.length l.
Proof.
  induction l as [|x l IH]; cbn; intros l'.
  - intros [= <-]. reflexivity.
  - destruct (f x); [discriminate|]. cbn.
    destruct (map_result f l); [discriminate|]. cbn. intros [= <-]. cbn.
    f_equal. auto.
Qed.

(** What the response counts, for any batch: [accepted_count] is the
    number of readings without error, [rejected_count] the total number of
    errors. *)
Lemma response_counts iso rs validated rid elapsed :
  validate_readings iso rs = inr validated ->
  exists ess, map_result (validate_single_reading iso) rs = inr ess
    /\ IngestResponse.accepted_count (Server.make_response rid validated elapsed)
       = List.length (accepted_of rs ess)
    /\ IngestResponse.rejected_count (Server.make_response rid validated elapsed)
       = List.length (List.concat ess)
    /\ (List.length (accepted_of rs ess) + rejected_readings ess = List.length rs)%nat.
Proof.
  destruct validated as [acc errs]. unfold validate_readings. intros H.
  apply validate_loop_spec in H. destruct H as (ess & Hm & -> & ->).
  exists ess. cbn. repeat split; auto.
  apply accepted_rejected_total. symmetry. eapply map_result_length; eauto.
Qed.

(** C1. On a batch of one reading that has two errors (three when the
    timestamp is refused as well), the response reports no accepted reading
    and as many rejected ones as there are errors: the two counts do not add
    up to the size of the batch. *)
Theorem rejected_count_counts_errors iso rid elapsed :
  exists validated ess,
    validate_readings iso two_error_batch = inr validated
    /\ map_result (validate_single_reading iso) two_error_batch = inr ess
    /\ rejected_readings ess = 1%nat
    /\ IngestResponse.accepted_count (Server.make_response rid validated elapsed) = 0%nat
    /\ IngestResponse.rejected_count (Server.make_response rid validated elapsed)
       = (if iso (lit "2026-02-23T10:00:00") then 2 else 3)%nat
    /\ (IngestResponse.accepted_count (Server.make_response rid validated elapsed)
        + IngestResponse.rejected_count (Server.make_response rid validated elapsed)
        <> List.length two_error_batch)%nat.
Proof.
  unfold validate_readings, two_error_batch.
  cbn [validate_loop map_result].
  rewrite validate_single_reading_blocks.
  unfold timestamp_errors. cbn [SensorReading.timestamp timestamp_parses].
  destruct (iso (lit "2026-02-23T10:00:00")); eexists; eexists;
    (split; [vm_compute; reflexivity|]); (split; [vm_compute; reflexivity|]);
    repeat split; cbn; lia.
Qed.
(* ================================================================== *)
(** * Properties of the protocol *)

Import Protocol.

(** ** UTF-8: decoding what was encoded *)

Ltac Zify.zify_post_hook ::= Z.to_euclidean_division_equations.

Section Utf8Facts.
Local Open Scope N_scope.

Lemma to_N_byte_of n : n < 256 -> Byte.to_N (Utf8.byte_of n) = n.
Proof.
  intros H. unfold Utf8.byte_of.
  pose proof (Byte.to_of_N_option_map n) as E.
  destruct (Byte.of_N n) as [b|]; cbn in E;
    destruct (N.leb_spec n 255); try discriminate; try lia.
  injection E as ->. reflexivity.
Qed.

Lemma continuation_byte_of r :
  r < 64 -> Utf8.continuation (Utf8.byte_of (128 + r)) = Some r.
Proof.
  intros H. unfold Utf8.continuation. rewrite to_N_byte_of by lia.
  destruct (N.leb_spec 128 (128 + r)); [|exfalso; lia].
  destruct (N.ltb_spec (128 + r) 192). 2: exfalso; lia.
  cbn [andb]. f_equal. lia.
Qed.

Ltac decide_test :=
  match goal with
  | |- context [?a <? ?b] => destruct (N.ltb_spec a b); try (exfalso; lia)
  | |- context [?a <=? ?b] => destruct (N.leb_spec a b); try (exfalso; lia)
  end.

#[local] Opaque N.add N.sub N.mul N.div N.modulo.

Lemma decode_encode_char c bs rest :
  Utf8.encode_char c = Some bs ->
  Utf8.decode (bs ++ rest) = Utf8.push c (Utf8.decode rest).
Proof.
  unfold Utf8.encode_char, Utf8.is_surrogate.
  destruct (N.ltb_spec c 128) as [H1|H1].
  { intros [= <-]. cbn [app Utf8.decode]. rewrite to_N_byte_of by lia.
    decide_test. reflexivity. }
  destruct (N.ltb_spec c 2048) as [H2|H2].
  { intros [= <-]. cbn [app Utf8.decode].
    rewrite to_N_byte_of, continuation_byte_of by lia.
    repeat decide_test. f_equal. lia. }
  destruct (N.ltb_spec c 65536) as [H3|H3].
  { destruct (N.leb_spec 55296 c) as [H4|H4];
      [destruct (N.leb_spec c 57343) as [H5|H5]; [discriminate|]|];
      cbn [andb]; intros [= <-]; cbn [app Utf8.decode];
      rewrite to_N_byte_of, !continuation_byte_of by lia;
      unfold Utf8.is_surrogate; repeat decide_test; cbn [andb negb];
      f_equal; lia. }
  destruct (N.ltb_spec c 1114112) as [H4|H4]; [|discriminate].
  intros [= <-]. cbn [app Utf8.decode].
  rewrite to_N_byte_of, !continuation_byte_of by lia.
  repeat decide_test. cbn [andb]. f_equal. lia.
Qed.

Lemma decode_encode s : forall bs,
  Utf8.encode s = Some bs -> Utf8.decode bs = Some s.
Proof.
  induction s as [|c s IH]; cbn [Utf8.encode]; intros bs.
  - intros [= <-]. reflexivity.
  - destruct (Utf8.encode_char c) as [b|] eqn:Ec; [|discriminate].
    destruct (Utf8.encode s) as [bs'|]; [|discriminate].
    intros [= <-]. rewrite (@decode_encode_char c b bs' Ec), (IH bs' eq_refl).
    reflexivity.
Qed.

Lemma encode_scalar_values s :
  forallb scalar_value s = true -> exists bs, Utf8.encode s = Some bs.
Proof.
  induction s as [|c s IH]; cbn; [eauto|].
  intros H. apply andb_prop in H. destruct H as [Hc Hs].
  destruct (IH Hs) as [bs ->].
  unfold scalar_value in Hc. apply andb_prop in Hc. destruct Hc as [H1 H2].
  unfold Utf8.encode_char. apply negb_true_iff in H2. rewrite H2, H1.
  repeat match goal with |- context [if ?b then _ else _] => destruct b end; eauto.
Qed.
#[local] Transparent N.add N.sub N.mul N.div N.modulo.

End Utf8Facts.

(** ** Envelope codec *)

Lemma strip_braced_line line :
  braced line -> strip (line ++ [10%N]) = line /\ truthy (PStr line) = true.
Proof.
  intros [body ->]. split; [|reflexivity].
  unfold strip. cbn [app lstrip].
  change (isspace 123%N) with false. cbn iota.
  change (123%N :: (body ++ [125%N]) ++ [10%N])
    with ((123%N :: body ++ [125%N]) ++ [10%N]).
  rewrite rev_app_distr. cbn [rev app lstrip].
  change (isspace 10%N) with true. cbn iota.
  rewrite rev_app_distr. cbn [rev app lstrip].
  change (isspace 125%N) with false. cbn iota.
  change (125%N :: rev body ++ [123%N]) with ((125%N :: rev body) ++ [123%N]).
  rewrite rev_app_distr. cbn [rev app]. rewrite rev_involutive. reflexivity.
Qed.

(** [encode_message] has an output as soon as the text of [json.dumps]
    holds no lone surrogate, and raises [UnicodeEncodeError] when it holds
    one. *)
Lemma encode_message_scalar_values (json_dumps : pyval -> str) msg :
  forallb scalar_value (json_dumps msg) = true ->
  exists data, encode_message json_dumps msg = inr data.
Proof.
  intros H. unfold encode_message.
  destruct (@encode_scalar_values (json_dumps msg ++ [10%N])) as [bs ->]; eauto.
  rewrite forallb_app, H. reflexivity.
Qed.

Lemma encode_lone_surrogate s c :
  In c s -> Utf8.is_surrogate c = true -> Utf8.encode s = None.
Proof.
  induction s as [|x s IH]; cbn [In Utf8.encode]; [tauto|].
  intros [->|Hin] Hc.
  - unfold Utf8.encode_char. rewrite Hc.
    unfold Utf8.is_surrogate in Hc. apply andb_prop in Hc. destruct Hc as [H1 H2].
    apply N.leb_le in H1, H2.
    destruct (N.ltb_spec c 128); [exfalso; lia|].
    destruct (N.ltb_spec c 2048); [exfalso; lia|].
    destruct (N.ltb_spec c 65536); [reflexivity|exfalso; lia].
  - rewrite (IH Hin Hc). destruct (Utf8.encode_char x); reflexivity.
Qed.

Lemma encode_message_lone_surrogate (json_dumps : pyval -> str) msg c :
  In c (json_dumps msg) -> Utf8.is_surrogate c = true ->
  encode_message json_dumps msg
  = inl (ValueError (TUnicodeEncode (json_dumps msg ++ [10%N]))).
Proof.
  intros Hin Hc. unfold encode_message.
  rewrite (@encode_lone_surrogate (json_dumps msg ++ [10%N]) c); auto.
  apply in_or_app. auto.
Qed.





(** C10. [build_message] puts the freshly generated identifier in the
    envelope when no [request_id] is given and also when the one given is
    the empty string (or any other false value); the envelope never carries
    an empty [request_id]. *)
Theorem build_message_request_id_never_empty
    (uuid4 now msg_type : str) (payload : pyval) :
  uuid4 <> [] ->
  envelope_request_id (build_message uuid4 now msg_type payload PNone)
    = inr (PStr uuid4)
  /\ envelope_request_id (build_message uuid4 now msg_type payload (PStr []))
     = inr (PStr uuid4)
  /\ (forall request_id, exists v,
        envelope_request_id (build_message uuid4 now msg_type payload request_id)
          = inr v
        /\ v = (if truthy request_id then request_id else PStr uuid4)
        /\ truthy v = true /\ v <> PStr []).
Proof.
  intros Hu. unfold envelope_request_id, build_message. cbn.
  repeat split. intros rid. eexists. split; [reflexivity|].
  unfold py_or. destruct (truthy rid) eqn:Ht.
  - repeat split; auto. intros ->. discriminate.
  - repeat split.
    + destruct uuid4; [congruence|reflexivity].
    + intros [= E]. congruence.
Qed.

Lemma build_message_request_id_never_empty_witness :
  lit "id-1" <> []
  /\ envelope_request_id
       (build_message (lit "id-1") (lit "2026-02-23T10:00:00") (lit "ping")
          (PDict []) (PStr []))
     = inr (PStr (lit "id-1")).
Proof.
  split; [discriminate|].
  refine (proj1 (proj2 (@build_message_request_id_never_empty
                          (lit "id-1") (lit "2026-02-23T10:00:00") (lit "ping")
                          (PDict []) _))).
  discriminate.
Defined.

(** ** Framing reader *)

(** C8. When the peer has closed and the buffer holds no newline,
    [recv_line] signals the end of the stream exactly when the buffer is
    empty; a non-empty buffer is decoded as UTF-8, returned as the last line
    and emptied (when it is not valid UTF-8 the decoding error is raised
    and the buffer is kept). *)
Theorem recv_line_at_end_of_stream conn buffer max_size :
  find_newline buffer = None ->
  peer_closed conn = true ->
  (fst (fst (recv_line conn buffer max_size)) = inr None <-> buffer = [])
  /\ (buffer <> [] -> forall line, Utf8.decode buffer = Some line ->
        fst (recv_line conn buffer max_size) = (inr (Some line), []))
  /\ (buffer <> [] -> Utf8.decode buffer = None ->
        fst (recv_line conn buffer max_size)
        = (inl (ValueError (TUnicodeDecode buffer)), buffer)).
Proof.
  intros Hn Hc.
  assert (E : recv_line conn buffer max_size
              = connection_closed buffer (tl conn)).
  { destruct conn as [|[[|]| |] conn]; try discriminate; cbn; rewrite Hn; reflexivity. }
  rewrite E. unfold connection_closed, decode_utf8.
  destruct buffer as [|b buffer].
  - cbn. repeat split; congruence.
  - destruct (Utf8.decode (b :: buffer)) as [line|]; cbn;
      unfold ok, raise; (split; [split; discriminate|split; intros]);
      first [reflexivity | discriminate
            | match goal with
              | H : Some _ = Some _ |- _ => injection H as <-; reflexivity
              end].
Qed.

Lemma recv_line_at_end_of_stream_witness :
  find_newline [x61; x62] = None
  /\ peer_closed [] = true
  /\ fst (recv_line [] [x61; x62] MAX_MESSAGE_SIZE) = (inr (Some (lit "ab")), []).
Proof.
  split; [reflexivity|]. split; [reflexivity|].
  refine (proj1 (proj2 (@recv_line_at_end_of_stream [] [x61; x62]
                          MAX_MESSAGE_SIZE eq_refl eq_refl)) _ (lit "ab") eq_refl).
  discriminate.
Defined.

Lemma find_newline_app_None a b :
  find_newline (a ++ b) = None -> find_newline a = None.
Proof.
  induction a as [|x a IH]; cbn; [reflexivity|].
  destruct (Byte.eqb x newline); [discriminate|].
  destruct (find_newline (a ++ b)); [discriminate|].
  intros _. rewrite IH; reflexivity.
Qed.

Lemma recv_line_data chunk conn buffer max_size :
  find_newline buffer = None -> chunk <> [] ->
  Z.of_nat (List.length (buffer ++ chunk)) <= max_size ->
  recv_line (Data chunk :: conn) buffer max_size
  = recv_line conn (buffer ++ chunk) max_size.
Proof.
  intros Hn Hc Hl. cbn [recv_line]. rewrite Hn.
  destruct chunk as [|b chunk]; [congruence|].
  destruct (Z.gtb_spec (Z.of_nat (List.length (buffer ++ b :: chunk))) max_size); [lia|].
  reflexivity.
Qed.

Lemma recv_line_message_too_large chunks chunk rest buffer max_size :
  Forall (fun c => c <> []) chunks -> chunk <> [] ->
  find_newline (buffer ++ List.concat chunks) = None ->
  Z.of_nat (List.length (buffer ++ List.concat chunks)) <= max_size ->
  Z.of_nat (List.length (buffer ++ List.concat chunks ++ chunk)) > max_size ->
  recv_line (List.map Data chunks ++ Data chunk :: rest) buffer max_size
  = (inl (ValueError (TTooLarge max_size)),
     buffer ++ List.concat chunks ++ chunk, rest).
Proof.
  intros Hne Hc. revert buffer.
  induction Hne as [|c chunks Hcne _ IH]; intros buffer Hn Hle Hgt.
  - cbn in *. rewrite app_nil_r in Hn, Hle. rewrite Hn.
    destruct chunk as [|b chunk]; [congruence|].
    destruct (Z.gtb_spec (Z.of_nat (List.length (buffer ++ b :: chunk))) max_size); [|lia].
    reflexivity.
  - cbn [List.concat List.map app] in *. rewrite app_assoc in Hn, Hle.
    rewrite recv_line_data; auto.
    + rewrite IH; auto.
      * rewrite <- !app_assoc. reflexivity.
      * rewrite <- !app_assoc in *. exact Hgt.
    + apply find_newline_app_None in Hn. apply find_newline_app_None in Hn. exact Hn.
    + rewrite !length_app in *. lia.
Qed.

Lemma split_lines_no_newline stream : forall current,
  find_newline stream = None ->
  split_lines current stream
  = match current ++ stream with [] => [] | l => [l] end.
Proof.
  induction stream as [|b stream IH]; intros current; cbn.
  - rewrite app_nil_r. destruct current; reflexivity.
  - destruct (Byte.eqb b newline); [discriminate|].
    destruct (find_newline stream); [discriminate|]. intros _.
    rewrite IH by reflexivity. rewrite <- app_assoc. reflexivity.
Qed.

Lemma split_lines_newline stream : forall current pos,
  find_newline stream = Some pos ->
  split_lines current stream
  = (current ++ firstn pos stream) :: split_lines [] (skipn (S pos) stream).
Proof.
  induction stream as [|b stream IH]; intros current pos; cbn [find_newline].
  - discriminate.
  - cbn [split_lines]. destruct (Byte.eqb b newline).
    + intros [= <-]. cbn. rewrite app_nil_r. reflexivity.
    + destruct (find_newline stream) as [n|]; [|discriminate].
      intros [= <-]. rewrite (IH (current ++ [b]) n eq_refl).
      cbn [firstn skipn]. rewrite <- app_assoc. reflexivity.
Qed.

Lemma find_newline_app_Some a b pos :
  find_newline a = Some pos ->
  find_newline (a ++ b) = Some pos
  /\ firstn pos (a ++ b) = firstn pos a
  /\ skipn (S pos) (a ++ b) = skipn (S pos) a ++ b.
Proof.
  revert pos. induction a as [|x a IH]; intros pos; cbn [find_newline]; [discriminate|].
  cbn [app find_newline]. destruct (Byte.eqb x newline).
  - intros [= <-]. cbn. auto.
  - destruct (find_newline a) as [n|]; [|discriminate].
    intros [= <-]. destruct (IH n eq_refl) as (-> & E1 & E2).
    cbn [firstn]. rewrite E1. cbn [skipn] in *. rewrite E2. auto.
Qed.

Lemma find_newline_bound a pos :
  find_newline a = Some pos -> (pos < List.length a)%nat.
Proof.
  revert pos. induction a as [|x a IH]; intros pos; cbn; [discriminate|].
  destruct (Byte.eqb x newline).
  - intros [= <-]. lia.
  - destruct (find_newline a) as [n|]; [|discriminate].
    intros [= <-]. specialize (IH n eq_refl). lia.
Qed.

Lemma read_lines_stream fuel : forall chunks buffer max_size,
  Forall (fun c => c <> []) chunks ->
  Z.of_nat (List.length (buffer ++ List.concat chunks)) <= max_size ->
  (List.length (buffer ++ List.concat chunks) < fuel)%nat ->
  read_lines fuel (List.map Data chunks) buffer max_size
  = stream_lines (buffer ++ List.concat chunks).
Proof.
  unfold stream_lines.
  induction fuel as [|fuel IHf]; intros chunks buffer max_size Hne; [lia|].
  revert buffer. induction Hne as [|c chunks Hc Hne IHc]; intros buffer Hmax Hfuel.
  - cbn [List.map List.concat] in *. rewrite app_nil_r in *.
    cbn [read_lines recv_line].
    destruct (find_newline buffer) as [pos|] eqn:Hn.
    + rewrite (@split_lines_newline _ [] _ Hn). cbn [app decode_all].
      unfold decode_utf8.
      destruct (Utf8.decode (firstn pos buffer)) as [line|]; cbn [ok raise];
        [|reflexivity].
      pose proof (@find_newline_bound _ _ Hn) as Hb.
      assert (Hlen : (List.length (skipn (S pos) buffer) < List.length buffer)%nat)
        by (rewrite length_skipn; lia).
      pose proof (IHf [] (skipn (S pos) buffer) max_size (Forall_nil _)) as IH.
      cbn [List.map List.concat] in IH. rewrite app_nil_r in IH.
      rewrite IH by lia. reflexivity.
    + rewrite (@split_lines_no_newline _ [] Hn). cbn [app].
      unfold connection_closed, decode_utf8.
      destruct buffer as [|b buffer]; [reflexivity|].
      cbn [decode_all]. destruct (Utf8.decode (b :: buffer)) as [line|]; cbn [ok raise];
        [|reflexivity].
      destruct fuel as [|fuel]; [cbn in Hfuel; lia|]. reflexivity.
  - cbn [List.map List.concat] in *.
    destruct (find_newline buffer) as [pos|] eqn:Hn.
    + cbn [read_lines recv_line]. rewrite Hn.
      destruct (@find_newline_app_Some _ (c ++ List.concat chunks) _ Hn) as (Hn' & E1 & E2).
      rewrite (@split_lines_newline _ [] _ Hn'). cbn [app decode_all]. rewrite E1, E2.
      unfold decode_utf8.
      destruct (Utf8.decode (firstn pos buffer)) as [line|]; cbn [ok raise];
        [|reflexivity].
      pose proof (@find_newline_bound _ _ Hn) as Hb.
      assert (Hlen : (List.length (skipn (S pos) buffer) < List.length buffer)%nat)
        by (rewrite length_skipn; lia).
      assert (Hall : Forall (fun c : bytes => c <> []) (c :: chunks))
        by (constructor; assumption).
      pose proof (IHf (c :: chunks) (skipn (S pos) buffer) max_size Hall) as IH.
      cbn [List.map List.concat] in IH.
      rewrite IH by (rewrite ?length_app in *; lia). reflexivity.
    + assert (E : read_lines (S fuel) (Data c :: List.map Data chunks) buffer max_size
                  = read_lines (S fuel) (List.map Data chunks) (buffer ++ c) max_size).
      { cbn [read_lines]. rewrite recv_line_data; auto.
        rewrite !length_app in *. lia. }
      rewrite E, IHc; rewrite <- ?app_assoc; auto.
Qed.

Lemma decode_all_ends lines : snd (decode_all lines) <> OutOfFuel.
Proof.
  induction lines as [|l lines IH]; cbn; [discriminate|].
  destruct (Utf8.decode l); [|discriminate].
  destruct (decode_all lines). exact IH.
Qed.

Lemma nonempty_chunks_concat chunks :
  Forall (fun c : bytes => c <> []) chunks -> List.concat chunks = [] -> chunks = [].
Proof.
  intros H. destruct H as [|c chunks Hc _]; [reflexivity|].
  cbn. destruct c; [congruence|discriminate].
Qed.

Lemma received_data chunks : received (List.map Data chunks) = List.concat chunks.
Proof.
  unfold received. rewrite map_map. rewrite map_id. reflexivity.
Qed.

(** C6, amended. For a byte stream whose total length is within the size
    bound, cutting it into arbitrary non-empty chunks yields the same
    sequence of decoded lines, ended the same way, as feeding it in one
    chunk: the lines of the stream. *)
Theorem chunking_invariance chunks max_size :
  Forall (fun c => c <> []) chunks ->
  Z.of_nat (List.length (List.concat chunks)) <= max_size ->
  decoded_lines (List.map Data chunks) max_size
  = decoded_lines [Data (List.concat chunks)] max_size
  /\ decoded_lines (List.map Data chunks) max_size = stream_lines (List.concat chunks)
  /\ snd (decoded_lines (List.map Data chunks) max_size) <> OutOfFuel.
Proof.
  intros Hne Hmax.
  assert (H1 : decoded_lines (List.map Data chunks) max_size
               = stream_lines (List.concat chunks)).
  { unfold decoded_lines. rewrite received_data.
    rewrite read_lines_stream; auto; cbn [app]; lia. }
  split; [|split; [exact H1|rewrite H1; apply decode_all_ends]]. rewrite H1.
  destruct (List.concat chunks) as [|b stream] eqn:E.
  - reflexivity.
  - unfold decoded_lines.
    change [Data (b :: stream)] with (List.map Data [b :: stream]).
    rewrite received_data.
    rewrite read_lines_stream; cbn [List.concat app]; rewrite ?app_nil_r; auto.
    constructor; [discriminate|constructor].
Qed.

Lemma chunking_invariance_witness :
  Forall (fun c : bytes => c <> []) two_messages_chunked
  /\ Z.of_nat (List.length (List.concat two_messages_chunked)) <= 7
  /\ decoded_lines (List.map Data two_messages_chunked) 7
     = decoded_lines [Data (List.concat two_messages_chunked)] 7.
Proof.
  assert (H : Forall (fun c : bytes => c <> []) two_messages_chunked)
    by (repeat constructor; discriminate).
  split; [exact H|]. split; [vm_compute; discriminate|].
  refine (proj1 (@chunking_invariance two_messages_chunked 7 H _)).
  vm_compute; discriminate.
Defined.

(** Counterexample to C6 as first stated, when the buffered bytes exceed
    the bound although every message is within it: with a bound of four bytes the two messages
    come out when they arrive in two chunks, and the size error is raised
    when they arrive in one. *)
Lemma chunking_changes_outcome_near_bound :
  List.concat two_messages_chunked = two_messages
  /\ Forall (fun c : bytes => c <> []) two_messages_chunked
  /\ messages_within 4 two_messages = true
  /\ decoded_lines (List.map Data two_messages_chunked) 4
     = ([lit "abc"; lit "de"], EndOfStream)
  /\ decoded_lines [Data two_messages] 4
     = ([], Raised (ValueError (TTooLarge 4))).
Proof.
  split; [reflexivity|]. split; [repeat constructor; discriminate|].
  repeat split.
Qed.

(* ================================================================== *)
(** * Properties of the exchange handler *)

Import Server.

Section HandlerFacts.
Variable json_dumps : pyval -> str.
Variable json_loads : str -> str + pyval.
Variable fromisoformat_ok : str -> bool.
Variable render : text -> str.
Variable uuid4 : nat -> str.
Variable now : nat -> str.
Variable elapsed_ms : nat -> pyfloat.

Let handle := handle_client json_dumps json_loads fromisoformat_ok render
                uuid4 now elapsed_ms.
Let body := try_body json_dumps json_loads fromisoformat_ok render
              uuid4 now elapsed_ms.

Lemma try_body_read_failure k c e buffer rest :
  recv_line (incoming c) [] MAX_MESSAGE_SIZE = (inl e, buffer, rest) ->
  body k (mk_frame c unknown) = (inl e, mk_frame (with_incoming c rest) unknown).
Proof.
  intros H. unfold body, try_body, mbind, read_message. cbn [conn request_id].
  rewrite H. reflexivity.
Qed.

Lemma handle_client_read_value_error k c t buffer rest :
  recv_line (incoming c) [] MAX_MESSAGE_SIZE = (inl (ValueError t), buffer, rest) ->
  handle k c
  = (let '(escaped, c') :=
       parsing_handler json_dumps render uuid4 now k (ValueError t)
         (mk_frame (with_incoming c rest) unknown) in
     (escaped, close c')).
Proof.
  intros H. unfold handle, handle_client. fold body.
  fold unknown. rewrite (try_body_read_failure k c H). reflexivity.
Qed.

Lemma send_sent data f :
  let '(r, f') := send data f in
  (r = inr tt /\ sent (conn f') = sent (conn f) ++ [data])
  \/ ((exists e, r = inl e) /\ sent (conn f') = sent (conn f)).
Proof.
  unfold send, sendall. destruct (sendall_script (conn f)) as [|[e|] script]; cbn.
  - left. auto.
  - right. eauto.
  - left. auto.
Qed.

(** The body of the [try] sends nothing, or it sends one message as its
    last action and returns. *)
Lemma try_body_sent k f :
  sent (conn (snd (body k f))) = sent (conn f)
  \/ (fst (body k f) = inr tt
      /\ exists data, sent (conn (snd (body k f))) = sent (conn f) ++ [data]).
Proof.
  assert (Hsend : forall data rid,
    let f0 := mk_frame (with_incoming (conn f) (snd (recv_line (incoming (conn f)) [] MAX_MESSAGE_SIZE))) rid in
    sent (conn (snd (send data f0))) = sent (conn f)
    \/ (fst (send data f0) = inr tt
        /\ exists d, sent (conn (snd (send data f0))) = sent (conn f) ++ [d])).
  { intros data rid f0. pose proof (send_sent data f0) as Hs.
    destruct (send data f0) as [r f']. cbn [fst snd].
    destruct Hs as [[-> Hs]|[_ Hs]]; [right; split; [reflexivity|]; eauto|left; exact Hs]. }
  unfold body, try_body, mbind, read_message, lift, set_request_id, ret.
  unfold with_incoming in Hsend.
  destruct (recv_line (incoming (conn f)) [] MAX_MESSAGE_SIZE) as [[r buffer] rest].
  cbn [conn request_id sent fst snd] in *.
  destruct r as [e|[line|]]; cbn [fst snd conn sent]; auto.
  destruct (decode_message json_loads line) as [e|msg]; cbn [fst snd conn sent]; auto.
  destruct (py_get msg (lit "request_id") (PStr (lit "unknown"))) as [e|rid];
    cbn [fst snd conn sent ok]; auto.
  destruct (py_get msg (lit "type") (PStr [])) as [e|msg_type];
    cbn [fst snd conn sent]; auto.
  destruct (negb (py_eq_str msg_type (lit "ingest_request"))).
  - destruct (encode_message _ _) as [e|data]; cbn [fst snd conn sent]; auto.
  - destruct (py_get msg (lit "payload") (PDict [])) as [e|payload];
      cbn [fst snd conn sent]; auto.
    destruct (IngestRequest.from_dict payload) as [e|req]; cbn [fst snd conn sent]; auto.
    destruct (Validators.validate_readings _ _) as [e|validated];
      cbn [fst snd conn sent]; auto.
    destruct (encode_message _ _) as [e|data]; cbn [fst snd conn sent]; auto.
Qed.

Lemma parsing_handler_sent k e f :
  let c' := snd (parsing_handler json_dumps render uuid4 now k e f) in
  sent c' = sent (conn f) \/ exists data, sent c' = sent (conn f) ++ [data].
Proof.
  unfold parsing_handler, mbind, lift.
  destruct (encode_message _ _) as [e'|data]; cbn; auto.
  pose proof (send_sent data f) as Hs. destruct (send data f) as [r f'].
  destruct Hs as [[-> Hs]|[[e' ->] Hs]]; cbn; eauto.
Qed.

(** Whatever arrives, [handle_client] sends at most one message and
    closes the socket. *)
Lemma handle_client_at_most_one_message k c :
  let c' := snd (handle k c) in
  closed c' = true
  /\ (sent c' = sent c \/ exists data, sent c' = sent c ++ [data]).
Proof.
  unfold handle, handle_client. fold body.
  pose proof (try_body_sent k (mk_frame c (PStr (lit "unknown")))) as Hb.
  destruct (body k (mk_frame c (PStr (lit "unknown")))) as [r f].
  cbn [conn sent fst snd] in Hb.
  assert (Hp : forall e,
    sent (conn f) = sent c ->
    let c' := snd (parsing_handler json_dumps render uuid4 now k e f) in
    sent c' = sent c \/ exists data, sent c' = sent c ++ [data]).
  { intros e Hs. pose proof (parsing_handler_sent k e f) as H.
    cbn zeta in *. rewrite Hs in H. exact H. }
  destruct r as [e|u].
  - destruct Hb as [Hs|[Hr _]]; [|discriminate].
    destruct e; cbn [is_ValueError is_KeyError is_OSError orb];
      try (split; [reflexivity|left; exact Hs]).
    + specialize (Hp (ValueError t) Hs).
      destruct (parsing_handler _ _ _ _ _ _ _) as [esc c']. split; [reflexivity|exact Hp].
    + specialize (Hp (KeyError key) Hs).
      destruct (parsing_handler _ _ _ _ _ _ _) as [esc c']. split; [reflexivity|exact Hp].
  - split; [reflexivity|]. cbn. destruct Hb as [Hs|[_ Hs]]; auto.
Qed.

(** A line that parses to a JSON value other than an object makes
    [msg.get] raise [AttributeError], which no [except] clause of
    [handle_client] catches. *)
Lemma handle_client_non_object k c text buffer rest msg :
  recv_line (incoming c) [] MAX_MESSAGE_SIZE = (inr (Some text), buffer, rest) ->
  decode_message json_loads text = inr msg ->
  is_dict msg = false ->
  handle k c = (Some AttributeError, close (with_incoming c rest)).
Proof.
  intros Hr Hd Hm. unfold handle, handle_client, try_body, mbind, read_message, lift.
  cbn [conn request_id]. rewrite Hr, Hd.
  destruct msg; try discriminate; reflexivity.
Qed.

(** An exception that leaves [handle_client] and is not an [OSError]
    leaves the loop of [run_server] too. *)
Lemma run_server_crash k c e c' events :
  handle k c = (Some e, c') -> is_OSError e = false ->
  run_server json_dumps json_loads fromisoformat_ok render uuid4 now
    elapsed_ms k (Accepted c :: events) = (Crashed e, [c']).
Proof.
  intros H He. cbn [run_server]. fold handle. rewrite H, He. reflexivity.
Qed.

(** The reading of [pump_off_request] makes [irrigation_mm > 0] raise
    [TypeError], which leaves [handle_client] as well. *)
Lemma handle_client_non_numeric_irrigation k c text buffer rest :
  recv_line (incoming c) [] MAX_MESSAGE_SIZE = (inr (Some text), buffer, rest) ->
  decode_message json_loads text = inr pump_off_request ->
  handle k c = (Some TypeError, close (with_incoming c rest)).
Proof.
  intros Hr Hd. unfold handle, handle_client, try_body, mbind, read_message, lift.
  cbn [conn request_id]. rewrite Hr, Hd. reflexivity.
Qed.

(** The exchange on [two_error_request], when the timestamp parses and
    the socket accepts the answer: the message sent is the envelope of a
    response with [accepted_count = 0] and [rejected_count = 2]. *)
Lemma handle_client_two_error_batch k c text buffer rest validated data :
  recv_line (incoming c) [] MAX_MESSAGE_SIZE = (inr (Some text), buffer, rest) ->
  decode_message json_loads text = inr two_error_request ->
  fromisoformat_ok (lit "2026-02-23T10:00:00") = true ->
  Validators.validate_readings fromisoformat_ok two_error_batch = inr validated ->
  encode_message json_dumps
    (build_message (uuid4 k) (now k) (lit "ingest_response")
       (IngestResponse.to_dict render
          (IngestResponse.mk (PStr (lit "r-2")) 0 2 (snd validated) (elapsed_ms k)))
       (PStr (lit "r-2"))) = inr data ->
  sendall_script c = [] ->
  handle k c
  = (None, mk_connection rest [] (sent c ++ [data]) true).
Proof.
  intros Hr Hd Hts Hv He Hs.
  assert (E1 : py_get two_error_request (lit "request_id") (PStr (lit "unknown"))
               = inr (PStr (lit "r-2"))) by reflexivity.
  assert (E2 : py_get two_error_request (lit "type") (PStr [])
               = inr (PStr (lit "ingest_request"))) by reflexivity.
  assert (E3 : py_eq_str (PStr (lit "ingest_request")) (lit "ingest_request") = true)
    by reflexivity.
  assert (E4 : py_get two_error_request (lit "payload") (PDict [])
               = inr (IngestRequest.to_dict
                        (IngestRequest.mk (PStr (lit "station_agri_01"))
                           two_error_batch))) by reflexivity.
  assert (E5 : IngestRequest.from_dict
                 (IngestRequest.to_dict
                    (IngestRequest.mk (PStr (lit "station_agri_01")) two_error_batch))
               = inr (IngestRequest.mk (PStr (lit "station_agri_01")) two_error_batch))
    by reflexivity.
  assert (E6 : make_response (PStr (lit "r-2")) validated (elapsed_ms k)
               = IngestResponse.mk (PStr (lit "r-2")) 0 2 (snd validated)
                   (elapsed_ms k)).
  { revert Hv. unfold Validators.validate_readings, two_error_batch.
    cbn [Validators.validate_loop]. rewrite validate_single_reading_blocks.
    unfold timestamp_errors. cbn [SensorReading.timestamp Validators.timestamp_parses].
    rewrite Hts. intros [= <-]. reflexivity. }
  unfold handle, handle_client, try_body, mbind, read_message, lift, set_request_id.
  cbn [conn request_id]. rewrite Hr, Hd. cbv beta iota.
  rewrite E1. cbv beta iota. rewrite E2. cbv beta iota. rewrite E3. cbn [negb].
  rewrite E4. cbv beta iota. rewrite E5. cbv beta iota.
  cbn [IngestRequest.readings]. rewrite Hv. cbv beta iota.
  rewrite E6, He. cbv beta iota. unfold send, sendall. cbn [conn sendall_script].
  rewrite Hs. reflexivity.
Qed.

End HandlerFacts.

(** C2. The line [[]] is valid JSON but not an object: [handle_client]
    sends nothing, closes the socket and lets an [AttributeError] out, and
    this exception ends the accept loop of [run_server]. The same holds for
    every line that [json.loads] parses to a value that is not an object. *)
Theorem non_object_json_stops_server
    (json_dumps : pyval -> str) (json_loads : str -> str + pyval)
    (fromisoformat_ok : str -> bool) (render : text -> str)
    (uuid4 now : nat -> str) (elapsed_ms : nat -> pyfloat)
    (k : nat) (c : connection) (text : str) (buffer : bytes)
    (rest : list recv_event) (msg : pyval) (events : list accept_event) :
  recv_line (incoming c) [] MAX_MESSAGE_SIZE = (inr (Some text), buffer, rest) ->
  decode_message json_loads text = inr msg ->
  is_dict msg = false ->
  handle_client json_dumps json_loads fromisoformat_ok render uuid4 now
    elapsed_ms k c
  = (Some AttributeError, close (with_incoming c rest))
  /\ sent (close (with_incoming c rest)) = sent c
  /\ run_server json_dumps json_loads fromisoformat_ok render uuid4 now
       elapsed_ms k (Accepted c :: events)
     = (Crashed AttributeError, [close (with_incoming c rest)]).
Proof.
  intros Hr Hd Hm.
  pose proof (handle_client_non_object json_dumps json_loads fromisoformat_ok
                render uuid4 now elapsed_ms k c Hr Hd Hm) as H.
  split; [exact H|]. split; [reflexivity|].
  apply run_server_crash; [exact H|reflexivity].
Qed.

Lemma non_object_json_stops_server_witness :
  let loads := fun _ : str => @inr str pyval (PList []) in
  let dumps := fun _ : pyval => lit "{}" in
  recv_line (incoming array_connection) [] MAX_MESSAGE_SIZE
  = (inr (Some (lit "[]")), [], [])
  /\ decode_message loads (lit "[]") = inr (PList [])
  /\ run_server dumps loads (fun _ => true) (fun _ => []) (fun _ => lit "id")
       (fun _ => lit "now") (fun _ => FFin 0) 0
       [Accepted array_connection; Accepted array_connection]
     = (Crashed AttributeError, [mk_connection [] [] [] true]).
Proof.
  split; [reflexivity|]. split; [reflexivity|].
  exact (proj2 (proj2 (@non_object_json_stops_server
                         (fun _ : pyval => lit "{}")
                         (fun _ : str => inr (PList []))
                         (fun _ => true) (fun _ => []) (fun _ => lit "id")
                         (fun _ => lit "now") (fun _ => FFin 0) 0
                         array_connection (lit "[]") [] [] (PList [])
                         [Accepted array_connection]
                         eq_refl eq_refl eq_refl))).
Defined.

(** C7. When an append takes the buffer above [max_size] before a line
    was returned, [recv_line] raises the message-too-large error. In
    [handle_client] the failure is handled by the parsing [except] clause
    alone, which does not call the JSON parser. *)
Theorem message_too_large_before_parsing
    (chunks : list bytes) (chunk : bytes) (rest : list recv_event)
    (buffer : bytes) (max_size : Z) :
  Forall (fun c => c <> []) chunks -> chunk <> [] ->
  find_newline (buffer ++ List.concat chunks) = None ->
  Z.of_nat (List.length (buffer ++ List.concat chunks)) <= max_size ->
  Z.of_nat (List.length (buffer ++ List.concat chunks ++ chunk)) > max_size ->
  recv_line (List.map Data chunks ++ Data chunk :: rest) buffer max_size
  = (inl (ValueError (TTooLarge max_size)),
     buffer ++ List.concat chunks ++ chunk, rest)
  /\ (buffer = [] -> max_size = MAX_MESSAGE_SIZE ->
      forall json_dumps json_loads fromisoformat_ok render uuid4 now elapsed_ms
             k c,
        incoming c = List.map Data chunks ++ Data chunk :: rest ->
        handle_client json_dumps json_loads fromisoformat_ok render uuid4 now
          elapsed_ms k c
        = (let '(escaped, c') :=
             parsing_handler json_dumps render uuid4 now k
               (ValueError (TTooLarge MAX_MESSAGE_SIZE))
               (mk_frame (with_incoming c rest) unknown) in
           (escaped, close c'))).
Proof.
  intros Hne Hc Hn Hle Hgt.
  pose proof (@recv_line_message_too_large chunks chunk rest buffer max_size
                Hne Hc Hn Hle Hgt) as H.
  split; [exact H|].
  intros -> -> json_dumps json_loads fromisoformat_ok render uuid4 now elapsed_ms
    k c Hin.
  rewrite <- Hin in H.
  exact (handle_client_read_value_error json_dumps json_loads fromisoformat_ok
           render uuid4 now elapsed_ms k c H).
Qed.

Lemma message_too_large_before_parsing_witness :
  recv_line [Data [x61; x62]; Data [x63; x64; x65]; Data [x0a]] [] 4
  = (inl (ValueError (TTooLarge 4)), [x61; x62; x63; x64; x65], [Data [x0a]]).
Proof.
  refine (proj1 (@message_too_large_before_parsing
                   [[x61; x62]] [x63; x64; x65] [Data [x0a]] [] 4 _ _ _ _ _)).
  - repeat constructor; discriminate.
  - discriminate.
  - reflexivity.
  - vm_compute; discriminate.
  - reflexivity.
Defined.
(* ================================================================== *)
(** * The data models, further properties *)

Lemma map_result_map A B (f : B -> result A) (g : A -> B) (l : list A) :
  (forall x, f (g x) = inr x) -> map_result f (List.map g l) = inr l.
Proof.
  intros H. induction l as [|x l IH]; [reflexivity|].
  cbn [List.map map_result]. rewrite H, IH. reflexivity.
Qed.

Lemma map_result_all A B (f : A -> result B) (l : list A) :
  (forall x, In x l -> exists y, f x = inr y) ->
  exists l', map_result f l = inr l' /\ List.length l' = List.length l.
Proof.
  induction l as [|x l IH]; intros H; [exists []; auto|].
  destruct (H x (or_introl eq_refl)) as [y Hy].
  destruct IH as (l' & E & Hl); [intros; apply H; right; assumption|].
  exists (y :: l'). cbn [map_result]. rewrite Hy, E. cbn. auto.
Qed.

Lemma map_result_first_failure A B (f : A -> result B) pre x post e :
  (forall y, In y pre -> exists z, f y = inr z) -> f x = inl e ->
  map_result f (pre ++ x :: post) = inl e.
Proof.
  intros Hpre Hx. induction pre as [|y pre IH]; cbn [app map_result].
  - rewrite Hx. reflexivity.
  - destruct (Hpre y (or_introl eq_refl)) as [z ->]. cbn [bind].
    rewrite IH; [reflexivity|]. intros; apply Hpre; right; assumption.
Qed.

Lemma from_dict_to_dict_reading r :
  SensorReading.from_dict (SensorReading.to_dict r) = inr r.
Proof. destruct r. reflexivity. Qed.

Lemma sensor_reading_from_dict_dict d :
  exists r, SensorReading.from_dict (PDict d) = inr r.
Proof. unfold SensorReading.from_dict. cbn. eauto. Qed.

Lemma sensor_reading_from_dict_other v :
  is_dict v = false -> SensorReading.from_dict v = inl AttributeError.
Proof. destruct v; try discriminate; reflexivity. Qed.

Lemma from_dict_to_dict_request (req : IngestRequest.t) :
  IngestRequest.from_dict (IngestRequest.to_dict req) = inr req.
Proof.
  destruct req as [src rs]. unfold IngestRequest.from_dict, IngestRequest.to_dict.
  cbn [IngestRequest.source IngestRequest.readings].
  set (d := PDict _).
  assert (E1 : py_get d (lit "readings") (PList [])
               = inr (PList (List.map SensorReading.to_dict rs))) by reflexivity.
  assert (E2 : py_get d (lit "source") (PStr []) = inr src) by reflexivity.
  rewrite E1, E2. cbn [bind py_iter ok].
  rewrite (map_result_map _ _ rs from_dict_to_dict_reading). reflexivity.
Qed.

(** X1. [IngestRequest.from_dict] rebuilds the request that
    [IngestRequest.to_dict] wrote: same source, same readings in the same
    order, each with its seven fields. *)
Theorem ingest_request_round_trip (req : IngestRequest.t) :
  IngestRequest.from_dict (IngestRequest.to_dict req) = inr req.
Proof. exact (from_dict_to_dict_request req). Qed.

(** X2. What [IngestRequest.from_dict] does with a payload. A payload that
    is not an object raises [AttributeError]; an object without [readings]
    gives a request with no reading; a [readings] that is null, a boolean
    or a number raises [TypeError]; a list of objects gives one reading per
    object; a list whose first item that is not an object comes after
    objects only raises [AttributeError]. *)
Theorem ingest_request_from_dict_cases (v : pyval) (d : list (str * pyval)) :
  (is_dict v = false -> IngestRequest.from_dict v = inl AttributeError)
  /\ (lookup d (lit "readings") = None ->
      exists src, IngestRequest.from_dict (PDict d) = inr (IngestRequest.mk src []))
  /\ (forall raw, lookup d (lit "readings") = Some raw -> not_iterable raw = true ->
      IngestRequest.from_dict (PDict d) = inl TypeError)
  /\ (forall items, lookup d (lit "readings") = Some (PList items) ->
      forallb is_dict items = true ->
      exists req, IngestRequest.from_dict (PDict d) = inr req
        /\ List.length (IngestRequest.readings req) = List.length items)
  /\ (forall pre item post, lookup d (lit "readings") = Some (PList (pre ++ item :: post)) ->
      forallb is_dict pre = true -> is_dict item = false ->
      IngestRequest.from_dict (PDict d) = inl AttributeError).
Proof.
  unfold IngestRequest.from_dict. cbn [py_get ok bind].
  split; [destruct v; try discriminate; reflexivity|].
  split; [intros ->; cbn; eauto|].
  split; [intros raw -> Hn; destruct raw; try discriminate; reflexivity|].
  split.
  - intros items -> Hd. cbn [py_iter bind ok].
    destruct (@map_result_all _ _ SensorReading.from_dict items) as (rs & -> & Hl).
    { intros x Hx. rewrite forallb_forall in Hd. specialize (Hd x Hx).
      destruct x; try discriminate. apply sensor_reading_from_dict_dict. }
    cbn. eauto.
  - intros pre item post -> Hpre Hitem. cbn [py_iter bind ok].
    rewrite (@map_result_first_failure _ _ SensorReading.from_dict pre item post
               AttributeError); auto.
    + intros y Hy. rewrite forallb_forall in Hpre. specialize (Hpre y Hy).
      destruct y; try discriminate. apply sensor_reading_from_dict_dict.
    + apply sensor_reading_from_dict_other; assumption.
Qed.

Lemma error_from_to_dict render e :
  Received.error_from_dict (ValidationError.to_dict render e)
  = inr (received_error render e).
Proof. destruct e. reflexivity. Qed.

(** X3. [ValidationError.from_dict] needs the three keys [sensor_id],
    [field] and [message]: it returns exactly when the dict has all three,
    and otherwise raises the [KeyError] of the first one missing, in that
    order; a value that is not a dict raises [TypeError]. *)
Theorem validation_error_from_dict_keys (v : pyval) (d : list (str * pyval)) :
  (is_dict v = false -> Received.error_from_dict v = inl TypeError)
  /\ ((exists e, Received.error_from_dict (PDict d) = inr e)
      <-> has_key d "sensor_id" && has_key d "field" && has_key d "message" = true)
  /\ (has_key d "sensor_id" = false ->
      Received.error_from_dict (PDict d) = inl (KeyError (lit "sensor_id")))
  /\ (has_key d "sensor_id" = true -> has_key d "field" = false ->
      Received.error_from_dict (PDict d) = inl (KeyError (lit "field")))
  /\ (has_key d "sensor_id" = true -> has_key d "field" = true ->
      has_key d "message" = false ->
      Received.error_from_dict (PDict d) = inl (KeyError (lit "message"))).
Proof.
  unfold Received.error_from_dict, Received.py_getitem, has_key.
  split; [destruct v; try discriminate; reflexivity|].
  destruct (lookup d (lit "sensor_id")) as [a|];
    destruct (lookup d (lit "field")) as [b|];
    destruct (lookup d (lit "message")) as [c|]; cbn;
    repeat split; intros; try discriminate; try reflexivity; eauto;
    match goal with H : exists _, _ |- _ => destruct H; discriminate end.
Qed.

(** X4. [IngestResponse.from_dict] rebuilds what [IngestResponse.to_dict]
    wrote: the request id, the two counts, the processing time and the
    errors in order, the message of each error being its rendered text. *)
Theorem ingest_response_round_trip render (r : IngestResponse.t) :
  Received.response_from_dict (IngestResponse.to_dict render r)
  = inr (received_response render r).
Proof.
  destruct r as [rid acc rej errs ms].
  unfold Received.response_from_dict, IngestResponse.to_dict, received_response.
  cbn [IngestResponse.request_id IngestResponse.accepted_count
         IngestResponse.rejected_count IngestResponse.errors
         IngestResponse.processing_time_ms].
  set (d := PDict _).
  assert (E1 : py_get d (lit "errors") (PList [])
               = inr (PList (List.map (ValidationError.to_dict render) errs)))
    by reflexivity.
  assert (E2 : Received.py_getitem d (lit "request_id") = inr rid) by reflexivity.
  assert (E3 : Received.py_getitem d (lit "accepted_count")
               = inr (PInt (Z.of_nat acc))) by reflexivity.
  assert (E4 : Received.py_getitem d (lit "rejected_count")
               = inr (PInt (Z.of_nat rej))) by reflexivity.
  assert (E5 : py_get d (lit "processing_time_ms") (PFloat (FFin 0))
               = inr (PFloat ms)) by reflexivity.
  rewrite E1, E2, E3, E4, E5. cbn [bind py_iter ok].
  assert (E6 : map_result Received.error_from_dict
                 (List.map (ValidationError.to_dict render) errs)
               = inr (List.map (received_error render) errs)).
  { clear. induction errs as [|e errs IH]; [reflexivity|].
    cbn [List.map map_result]. rewrite error_from_to_dict, IH. reflexivity. }
  rewrite E6. reflexivity.
Qed.

(* ================================================================== *)
(** * The validation engine, further properties *)

Lemma fields_of_blocks iso r errs :
  validate_single_reading iso r = inr errs ->
  exists b vs p,
    sensor_id_blank r = inr b /\ value_errors r = inr vs
    /\ pump_inconsistent r = inr p
    /\ errs = sensor_id_errors r b ++ vs ++ timestamp_errors iso r ++ pump_errors r p
    /\ fields_of errs
       = only_if b "sensor_id" ++ only_if (negb (is_nil vs)) "value"
         ++ only_if (negb (timestamp_parses iso (SensorReading.timestamp r))) "timestamp"
         ++ only_if p "pump_status"
    /\ Forall (fun e => ValidationError.sensor_id e = sid_of r) errs.
Proof.
  intros H. apply validate_single_reading_inv in H.
  destruct H as (b & vs & p & Hb & Hv & Hp & ->).
  exists b, vs, p. repeat (split; [assumption || reflexivity|]).
  assert (Hvs : fields_of vs = only_if (negb (is_nil vs)) "value"
                /\ Forall (fun e => ValidationError.sensor_id e = sid_of r) vs).
  { revert Hv. unfold value_errors.
    destruct (negb (is_int_or_float _)); [intros [= <-]; split; [reflexivity|]; repeat constructor|].
    destruct (ranges_get _) as [e|[[vmin vmax]|]]; cbn [bind]; try discriminate.
    - destruct (number_of _) as [v|]; [destruct (negb (fle vmin v && fle v vmax))|];
        intros [= <-]; split; try reflexivity; repeat constructor.
    - intros [= <-]. split; [reflexivity|constructor]. }
  destruct Hvs as [Hf Hs]. split.
  - unfold fields_of in *. rewrite !map_app, Hf. unfold timestamp_errors.
    destruct b, p, (timestamp_parses iso (SensorReading.timestamp r)); reflexivity.
  - rewrite !Forall_app. unfold timestamp_errors.
    destruct b, p, (timestamp_parses iso (SensorReading.timestamp r));
      repeat split; auto; repeat constructor.
Qed.

Lemma str_eqb_eq a : forall b, str_eqb a b = true -> a = b.
Proof.
  induction a as [|x a IH]; intros [|y b]; cbn; try discriminate; auto.
  intros H. apply andb_prop in H. destruct H as [H1 H2].
  apply N.eqb_eq in H1. f_equal; auto.
Qed.

Lemma str_eqb_refl a : str_eqb a a = true.
Proof. induction a as [|x a IH]; cbn; [reflexivity|]. rewrite N.eqb_refl. exact IH. Qed.

Lemma count_field_fields f errs :
  count_field f errs
  = List.length (filter (fun x => str_eqb x (lit f)) (fields_of errs)).
Proof.
  unfold count_field, fields_of, has_field.
  induction errs as [|e errs IH]; [reflexivity|].
  cbn [filter List.map]. destruct (str_eqb (ValidationError.field e) (lit f));
    cbn [List.length]; rewrite ?IH; reflexivity.
Qed.

(** X5. A reading that [validate_single_reading] returns on gets at most
    one error per field, and the errors come in the order of the checks:
    [sensor_id], [value], [timestamp], [pump_status]; so at most four. *)
Theorem errors_one_per_field_in_order iso r errs :
  validate_single_reading iso r = inr errs ->
  (exists b1 b2 b3 b4,
      fields_of errs = only_if b1 "sensor_id" ++ only_if b2 "value"
                       ++ only_if b3 "timestamp" ++ only_if b4 "pump_status")
  /\ (List.length errs <= 4)%nat
  /\ (forall f, count_field f errs <= 1)%nat.
Proof.
  intros H. apply fields_of_blocks in H.
  destruct H as (b & vs & p & _ & _ & _ & _ & Hf & _).
  split; [eauto|]. split.
  - rewrite <- (length_map ValidationError.field). fold (fields_of errs). rewrite Hf.
    destruct b, (negb (is_nil vs)), p,
      (negb (timestamp_parses iso (SensorReading.timestamp r))); cbn; lia.
  - intros f. rewrite count_field_fields, Hf.
    destruct b, (negb (is_nil vs)), p,
      (negb (timestamp_parses iso (SensorReading.timestamp r)));
      cbn [only_if app filter];
      repeat match goal with
        | |- context [str_eqb (lit ?a) (lit f)] =>
            destruct (str_eqb (lit a) (lit f)) eqn:?
        end; cbn [List.length]; try lia;
      repeat match goal with
        | H : str_eqb _ _ = true |- _ => apply str_eqb_eq in H
        end;
      match goal with
      | H1 : lit ?a = lit f, H2 : lit ?b = lit f |- _ =>
          rewrite <- H2 in H1; vm_compute in H1; discriminate H1
      end.
Qed.

Lemma errors_one_per_field_in_order_witness :
  validate_single_reading (fun _ => false) sample_reading
  = inr [error (PStr (lit "t01")) "timestamp"
           (TBadTimestamp (PStr (lit "2026-02-23T10:00:00")))]
  /\ (count_field "timestamp"%string
        [error (PStr (lit "t01")) "timestamp"
           (TBadTimestamp (PStr (lit "2026-02-23T10:00:00")))] <= 1)%nat.
Proof.
  split; [reflexivity|].
  exact (proj2 (proj2 (@errors_one_per_field_in_order (fun _ => false)
                         sample_reading _ eq_refl)) "timestamp"%string).
Defined.

(** X6. The [sensor_id] check. When validation returns, the reading has
    one [sensor_id] error if its identifier is falsy or a string of white
    space only, and none otherwise; every error of the reading carries the
    identifier, or the text [(vide)] when the identifier is falsy. A truthy
    identifier that is not a string makes [validate_single_reading] raise
    [AttributeError]. *)
Theorem sensor_id_rule iso r :
  (forall errs, validate_single_reading iso r = inr errs ->
     count_field "sensor_id" errs = (if blank (SensorReading.sensor_id r) then 1 else 0)%nat
     /\ Forall (fun e => ValidationError.sensor_id e
                         = (if truthy (SensorReading.sensor_id r)
                            then SensorReading.sensor_id r else PStr (lit "(vide)")))
          errs)
  /\ (truthy (SensorReading.sensor_id r) = true ->
      is_str (SensorReading.sensor_id r) = false ->
      validate_single_reading iso r = inl AttributeError).
Proof.
  split.
  - intros errs H. apply fields_of_blocks in H.
    destruct H as (b & vs & p & Hb & _ & _ & _ & Hf & Hs).
    split; [|exact Hs].
    assert (b = blank (SensorReading.sensor_id r)) as ->.
    { unfold sensor_id_blank, blank in *.
      destruct (SensorReading.sensor_id r) as [|b0|z|f|s|l|d];
        cbn [truthy negb py_strip bind ok raise] in *;
        try destruct b0; try destruct (negb (z =? 0)%Z);
        try destruct (negb (fzero f)); try destruct s as [|c s];
        try destruct l; try destruct d;
        cbn [truthy negb py_strip bind ok raise is_nil] in *;
        try discriminate Hb; try (injection Hb as <-; reflexivity).
      injection Hb as <-. destruct (strip (c :: s)); reflexivity. }
    rewrite count_field_fields, Hf.
    destruct (blank (SensorReading.sensor_id r)), (negb (is_nil vs)), p,
      (negb (timestamp_parses iso (SensorReading.timestamp r))); reflexivity.
  - intros Ht Hs. rewrite validate_single_reading_blocks.
    unfold sensor_id_blank. rewrite Ht. cbn [negb].
    destruct (SensorReading.sensor_id r); try discriminate; reflexivity.
Qed.


Lemma declared_blocks r :
  declared_types r = true ->
  sensor_id_blank r = inr (blank (SensorReading.sensor_id r))
  /\ (exists vs, value_errors r = inr vs
        /\ is_nil vs = is_int_or_float (SensorReading.value r) && within_range r)
  /\ pump_inconsistent r = inr (pump_off_while_irrigating r).
Proof.
  unfold declared_types. intros H.
  repeat (apply andb_prop in H; destruct H as [H ?]).
  destruct r as [sid ty v u ts ps irr]; cbn [SensorReading.sensor_id
    SensorReading.type SensorReading.value SensorReading.unit
    SensorReading.timestamp SensorReading.pump_status
    SensorReading.irrigation_mm] in *.
  destruct sid as [| | | |s| |]; try discriminate.
  destruct ty as [| | | |t| |]; try discriminate.
  split; [|split].
  - unfold sensor_id_blank, blank. cbn [SensorReading.sensor_id truthy py_strip].
    destruct s as [|c s]; [reflexivity|]. cbn [negb bind ok truthy].
    destruct (strip (c :: s)); reflexivity.
  - unfold value_errors, within_range, ranges_get.
    cbn [SensorReading.value SensorReading.type hashable bind ok].
    destruct (is_int_or_float v) eqn:Hv; cbn [negb andb]; [|eauto].
    destruct (number_of v) as [x|] eqn:Hx.
    + destruct (assoc VALUE_RANGES t) as [[vmin vmax]|]; [|eauto].
      destruct (fle vmin x && fle x vmax); cbn [negb]; eauto.
    + destruct v; discriminate.
  - unfold pump_inconsistent, pump_off_while_irrigating.
    cbn [SensorReading.pump_status SensorReading.irrigation_mm].
    destruct (py_eq_str ps (lit "OFF")); [|reflexivity]. cbn [andb].
    destruct irr; try discriminate; reflexivity.
Qed.

(** What the three blocks that can raise have computed when they return. *)
Lemma returned_blocks r b vs p :
  sensor_id_blank r = inr b -> value_errors r = inr vs ->
  pump_inconsistent r = inr p ->
  b = blank (SensorReading.sensor_id r)
  /\ is_nil vs = is_int_or_float (SensorReading.value r) && within_range r
  /\ p = pump_off_while_irrigating r.
Proof.
  destruct r as [sid ty v u ts ps irr].
  unfold sensor_id_blank, value_errors, pump_inconsistent, blank, within_range,
    pump_off_while_irrigating, ranges_get, py_gt_zero.
  cbn [SensorReading.sensor_id SensorReading.type SensorReading.value
       SensorReading.pump_status SensorReading.irrigation_mm].
  intros Hb Hv Hp. split; [|split].
  - unfold ok, raise in *.
    destruct sid as [|x|z|f|s|l|d]; [| | | |destruct s as [|c s]| |];
      cbn [truthy negb py_strip bind] in Hb |- *;
      try (injection Hb as <-; reflexivity);
      try (match type of Hb with context [if ?c then _ else _] =>
             destruct c eqn:Ec; cbn [negb bind] in Hb |- * end;
           try discriminate Hb; injection Hb as <-; reflexivity).
    unfold ok in Hb. injection Hb as <-. destruct (strip (c :: s)); reflexivity.
  - destruct (is_int_or_float v) eqn:Ev; cbn [negb andb] in Hv |- *.
    + destruct (hashable ty) eqn:Eh; [|discriminate Hv].
      destruct (number_of v) as [x|] eqn:Ex; [|destruct v; discriminate].
      destruct ty as [|x0|z|f|t|l|d]; cbn [bind ok] in Hv;
        try (injection Hv as <-; reflexivity); try discriminate Eh.
      destruct (assoc VALUE_RANGES t) as [[vmin vmax]|];
        [|injection Hv as <-; reflexivity].
      destruct (fle vmin x && fle x vmax); cbn [negb] in Hv;
        injection Hv as <-; reflexivity.
    + injection Hv as <-. reflexivity.
  - destruct (py_eq_str ps (lit "OFF")); cbn [andb];
      [|injection Hp as <-; reflexivity].
    destruct irr as [|x|z|f|s|l|d]; cbn [number_of] in Hp |- *;
      try discriminate Hp; injection Hp as <-; reflexivity.
Qed.

(** X7. Whenever [validate_single_reading] returns, the fields of its
    errors are decided by four tests, in this order: the identifier is
    blank; the value is not a number or lies outside the range of the
    type; the timestamp does not parse; the pump is [OFF] while
    [irrigation_mm] is above zero. *)
Theorem validation_outcome iso r errs :
  validate_single_reading iso r = inr errs ->
  fields_of errs
  = only_if (blank (SensorReading.sensor_id r)) "sensor_id"
    ++ only_if (negb (is_int_or_float (SensorReading.value r) && within_range r))
         "value"
    ++ only_if (negb (timestamp_parses iso (SensorReading.timestamp r))) "timestamp"
    ++ only_if (pump_off_while_irrigating r) "pump_status".
Proof.
  intros H. apply fields_of_blocks in H.
  destruct H as (b & vs & p & Hb & Hv & Hp & _ & Hf & _).
  destruct (returned_blocks r Hb Hv Hp) as (-> & Hn & ->).
  rewrite Hf, Hn. reflexivity.
Qed.

Lemma validation_outcome_witness :
  validate_single_reading (fun _ => true) (hd sample_reading two_error_batch)
  = inr [error (PStr (lit "(vide)")) "sensor_id" TSensorIdRequired;
         error (PStr (lit "(vide)")) "value"
           (TOutOfRange (PFloat (FFin (-999))) (FFin (-50)) (FFin 60)
              (PStr (lit "temperature")))]
  /\ fields_of
       [error (PStr (lit "(vide)")) "sensor_id" TSensorIdRequired;
        error (PStr (lit "(vide)")) "value"
          (TOutOfRange (PFloat (FFin (-999))) (FFin (-50)) (FFin 60)
             (PStr (lit "temperature")))]
     = [lit "sensor_id"; lit "value"].
Proof.
  split; [reflexivity|].
  exact (@validation_outcome (fun _ => true) (hd sample_reading two_error_batch)
           _ eq_refl).
Defined.

(** X8. A reading of the declared types is accepted (no error) exactly
    when its identifier is not blank, its value is a number within the
    range of its type, its timestamp parses and it does not report
    irrigation with the pump [OFF]. *)
Theorem reading_accepted_iff iso r :
  declared_types r = true ->
  (validate_single_reading iso r = inr []
   <-> blank (SensorReading.sensor_id r) = false
       /\ is_int_or_float (SensorReading.value r) = true
       /\ within_range r = true
       /\ timestamp_parses iso (SensorReading.timestamp r) = true
       /\ pump_off_while_irrigating r = false).
Proof.
  intros Hd. destruct (declared_types_completes iso r Hd) as [errs H].
  pose proof H as H'. apply fields_of_blocks in H'.
  destruct H' as (b & vs & p & Hb & Hv & Hp & _ & Hf & _).
  destruct (declared_blocks r Hd) as (Eb & (vs' & Ev & Hn) & Ep).
  rewrite Eb in Hb. rewrite Ev in Hv. rewrite Ep in Hp.
  injection Hb as <-. injection Hv as <-. injection Hp as <-.
  rewrite Hn in Hf. rewrite H. split.
  - intros [= ->]. cbn in Hf.
    destruct (blank _), (is_int_or_float _), (within_range r),
      (timestamp_parses iso _), (pump_off_while_irrigating r);
      cbn in Hf; try discriminate Hf; auto.
  - intros (E1 & E2 & E3 & E4 & E5). rewrite E1, E2, E3, E4, E5 in Hf.
    destruct errs; [reflexivity|discriminate Hf].
Qed.

Lemma reading_accepted_iff_witness :
  declared_types sample_reading = true
  /\ validate_single_reading (fun _ => true) sample_reading = inr [].
Proof.
  split; [reflexivity|].
  apply (proj2 (@reading_accepted_iff (fun _ => true) sample_reading eq_refl)).
  repeat split; reflexivity.
Defined.

(** X9. The pump check. When validation returns, [irrigation_mm] was
    absent or a number, or the pump was not [OFF], and the reading has one
    [pump_status] error if the pump is [OFF] with [irrigation_mm] above
    zero, none otherwise. With the pump [OFF], an [irrigation_mm] that is
    neither absent nor a number makes [validate_single_reading] raise. *)
Theorem pump_rule iso r :
  (forall errs, validate_single_reading iso r = inr errs ->
     (is_none (SensorReading.irrigation_mm r)
      || is_int_or_float (SensorReading.irrigation_mm r)
      || negb (py_eq_str (SensorReading.pump_status r) (lit "OFF"))) = true
     /\ count_field "pump_status" errs
        = (if pump_off_while_irrigating r then 1 else 0)%nat)
  /\ (py_eq_str (SensorReading.pump_status r) (lit "OFF") = true ->
      is_none (SensorReading.irrigation_mm r) = false ->
      is_int_or_float (SensorReading.irrigation_mm r) = false ->
      exists e, validate_single_reading iso r = inl e).
Proof.
  assert (Hp : forall p, pump_inconsistent r = inr p ->
             (is_none (SensorReading.irrigation_mm r)
              || is_int_or_float (SensorReading.irrigation_mm r)
              || negb (py_eq_str (SensorReading.pump_status r) (lit "OFF"))) = true
             /\ p = pump_off_while_irrigating r).
  { unfold pump_inconsistent, pump_off_while_irrigating.
    destruct (py_eq_str (SensorReading.pump_status r) (lit "OFF"));
      [|intros p [= <-]; rewrite orb_true_r; auto].
    destruct (SensorReading.irrigation_mm r); cbn; intros p E;
      try discriminate E; injection E as <-; auto. }
  split.
  - intros errs H. apply fields_of_blocks in H.
    destruct H as (b & vs & p & _ & _ & Hpi & _ & Hf & _).
    destruct (Hp p Hpi) as [Ho ->]. split; [exact Ho|].
    rewrite count_field_fields, Hf.
    destruct b, (negb (is_nil vs)), (pump_off_while_irrigating r),
      (negb (timestamp_parses iso (SensorReading.timestamp r))); reflexivity.
  - intros Hoff Hn Hnum.
    destruct (validate_single_reading iso r) as [e|errs] eqn:H; [eauto|].
    apply fields_of_blocks in H.
    destruct H as (b & vs & p & _ & _ & Hpi & _).
    destruct (Hp p Hpi) as [Ho _]. rewrite Hoff, Hn, Hnum in Ho. discriminate Ho.
Qed.

(** ** The batch *)

Lemma validate_loop_complete iso rs : forall ess acc errs,
  map_result (validate_single_reading iso) rs = inr ess ->
  validate_loop iso rs acc errs
  = inr (acc ++ accepted_of rs ess, errs ++ List.concat ess).
Proof.
  induction rs as [|r rs IH]; intros ess acc errs; cbn [map_result validate_loop].
  - intros [= <-]. cbn. rewrite !app_nil_r. reflexivity.
  - destruct (validate_single_reading iso r) as [e|es]; [discriminate|]. cbn [bind].
    destruct (map_result (validate_single_reading iso) rs) as [e|ess'] eqn:E;
      [discriminate|].
    cbn [bind ok]. intros [= <-]. specialize (IH ess').
    destruct es as [|e es]; rewrite IH by reflexivity; cbn [accepted_of is_nil List.concat];
      rewrite <- ?app_assoc; reflexivity.
Qed.

Lemma validate_loop_failure iso rs : forall e acc errs,
  map_result (validate_single_reading iso) rs = inl e ->
  validate_loop iso rs acc errs = inl e.
Proof.
  induction rs as [|r rs IH]; intros e acc errs; cbn [map_result validate_loop];
    [discriminate|].
  destruct (validate_single_reading iso r) as [e'|es]; [intros [= <-]; reflexivity|].
  cbn [bind].
  destruct (map_result (validate_single_reading iso) rs) as [e'|ess'] eqn:E;
    [|discriminate].
  cbn [bind]. intros [= <-]. destruct es; apply IH; reflexivity.
Qed.

(** X10. [validate_readings] returns exactly when every reading of the
    batch validates; the accepted list is then the readings without error,
    in the order of the batch, and the error list is the errors of the
    readings one after the other. *)
Theorem validate_readings_partition iso rs accepted errors :
  validate_readings iso rs = inr (accepted, errors)
  <-> exists ess,
        map_result (validate_single_reading iso) rs = inr ess
        /\ accepted = accepted_of rs ess
        /\ errors = List.concat ess.
Proof.
  unfold validate_readings. split.
  - intros H. apply validate_loop_spec in H. destruct H as (ess & H & -> & ->). eauto.
  - intros (ess & H & -> & ->). rewrite (validate_loop_complete _ _ [] [] H). reflexivity.
Qed.

(** X11. [validate_readings] handles no exception: when the readings
    before [r] validate and [r] makes [validate_single_reading] raise,
    the call raises the same exception, whatever was accepted before and
    whatever follows. *)
Theorem validate_readings_first_failure iso pre r post e :
  (forall x, In x pre -> exists errs, validate_single_reading iso x = inr errs) ->
  validate_single_reading iso r = inl e ->
  validate_readings iso (pre ++ r :: post) = inl e.
Proof.
  intros Hpre Hr. unfold validate_readings. apply validate_loop_failure.
  induction pre as [|y pre IH]; cbn [app map_result].
  - rewrite Hr. reflexivity.
  - destruct (Hpre y (or_introl eq_refl)) as [z ->]. cbn [bind].
    rewrite IH; [reflexivity|]. intros; apply Hpre; right; assumption.
Qed.

Lemma validate_readings_first_failure_witness :
  validate_readings (fun _ => true)
    [sample_reading; with_value numeric_id_reading (PFloat (FFin 22)); sample_reading]
  = inl AttributeError.
Proof.
  apply (@validate_readings_first_failure (fun _ => true) [sample_reading]
           (with_value numeric_id_reading (PFloat (FFin 22))) [sample_reading]
           AttributeError).
  - intros x [<-|[]]. eexists. reflexivity.
  - reflexivity.
Defined.

Lemma map_result_app A B (f : A -> result B) l1 l2 r1 r2 :
  map_result f l1 = inr r1 -> map_result f l2 = inr r2 ->
  map_result f (l1 ++ l2) = inr (r1 ++ r2).
Proof.
  revert r1. induction l1 as [|x l1 IH]; intros r1; cbn [app map_result].
  - intros [= <-]. auto.
  - destruct (f x); [discriminate|]. cbn [bind].
    destruct (map_result f l1) as [|r1']; [discriminate|]. cbn [bind ok].
    intros [= <-] H2. rewrite (IH r1' eq_refl H2). reflexivity.
Qed.

Lemma accepted_of_app rs1 : forall ess1 rs2 ess2,
  List.length rs1 = List.length ess1 ->
  accepted_of (rs1 ++ rs2) (ess1 ++ ess2) = accepted_of rs1 ess1 ++ accepted_of rs2 ess2.
Proof.
  induction rs1 as [|r rs1 IH]; intros [|es ess1] rs2 ess2; cbn [List.length];
    try discriminate; [reflexivity|].
  intros [= H]. cbn [app accepted_of]. rewrite IH by assumption.
  destruct (is_nil es); reflexivity.
Qed.

(** X12. Validating a batch gives the result of validating its two halves
    one after the other: the accepted lists and the error lists are
    concatenated. *)
Theorem validate_readings_app iso rs1 rs2 acc1 errs1 acc2 errs2 :
  validate_readings iso rs1 = inr (acc1, errs1) ->
  validate_readings iso rs2 = inr (acc2, errs2) ->
  validate_readings iso (rs1 ++ rs2) = inr (acc1 ++ acc2, errs1 ++ errs2).
Proof.
  unfold validate_readings. intros H1 H2.
  apply validate_loop_spec in H1. destruct H1 as (ess1 & E1 & -> & ->).
  apply validate_loop_spec in H2. destruct H2 as (ess2 & E2 & -> & ->).
  rewrite (validate_loop_complete _ _ [] [] (map_result_app _ _ _ E1 E2)).
  cbn [app]. rewrite concat_app, accepted_of_app; [reflexivity|].
  symmetry. eapply map_result_length; eauto.
Qed.

Lemma validate_readings_app_witness :
  validate_readings (fun _ => true) [sample_reading; sample_reading]
  = inr ([sample_reading; sample_reading], []).
Proof.
  exact (@validate_readings_app (fun _ => true) [sample_reading] [sample_reading]
           [sample_reading] [] [sample_reading] [] eq_refl eq_refl).
Defined.

(** X13. In the response built from a validated batch, [accepted_count]
    plus the number of rejected readings is the size of the batch, and
    [rejected_count], the number of errors, lies between that number of
    rejected readings and four times it; it is zero exactly when the whole
    batch is accepted. *)
Theorem response_count_bounds iso rs validated rid elapsed :
  validate_readings iso rs = inr validated ->
  let response := Server.make_response rid validated elapsed in
  exists rejected : nat,
    (IngestResponse.accepted_count response + rejected = List.length rs)%nat
    /\ (rejected <= IngestResponse.rejected_count response <= 4 * rejected)%nat
    /\ IngestResponse.rejected_count response
       = List.length (IngestResponse.errors response)
    /\ (IngestResponse.rejected_count response = 0%nat
        <-> IngestResponse.accepted_count response = List.length rs).
Proof.
  destruct validated as [acc errs]. unfold validate_readings. intros H.
  apply validate_loop_spec in H. destruct H as (ess & Hm & -> & ->).
  cbn [Server.make_response app IngestResponse.accepted_count
         IngestResponse.rejected_count IngestResponse.errors].
  exists (rejected_readings ess).
  assert (Hlen : List.length rs = List.length ess)
    by (symmetry; eapply map_result_length; eauto).
  assert (Hb : forall es, In es ess -> (List.length es <= 4)%nat).
  { clear Hlen. revert ess Hm. induction rs as [|r rs IH]; cbn [map_result]; intros ess.
    - intros [= <-] es [].
    - destruct (validate_single_reading iso r) as [e|es0] eqn:Hr; [discriminate|].
      cbn [bind]. destruct (map_result _ rs) as [e|ess0]; [discriminate|].
      cbn [bind ok]. intros [= <-] es [<-|Hin]; [|eapply IH; eauto].
      apply fields_of_blocks in Hr.
      destruct Hr as (b & vs & p & _ & _ & _ & _ & Hf & _).
      rewrite <- (length_map ValidationError.field). fold (fields_of es0). rewrite Hf.
      destruct b, (negb (is_nil vs)), p, (negb (timestamp_parses iso _)); cbn; lia. }
  pose proof (accepted_rejected_total rs ess Hlen) as Ht.
  assert (Hc : (rejected_readings ess <= List.length (List.concat ess)
                <= 4 * rejected_readings ess)%nat).
  { clear -Hb. unfold rejected_readings.
    induction ess as [|es ess IH]; [cbn; lia|].
    cbn [List.concat filter]. rewrite length_app.
    specialize (IH (fun x Hx => Hb x (or_intror Hx))).
    pose proof (Hb es (or_introl eq_refl)).
    destruct es; cbn [is_nil negb List.length] in *; lia. }
  repeat split; try lia.
Qed.

Lemma response_count_bounds_witness :
  validate_readings (fun _ => true) [sample_reading; sample_reading]
  = inr ([sample_reading; sample_reading], [])
  /\ exists rejected : nat,
       (2 + rejected = 2)%nat /\ (rejected <= 0 <= 4 * rejected)%nat.
Proof.
  split; [reflexivity|].
  destruct (@response_count_bounds (fun _ => true) [sample_reading; sample_reading]
              ([sample_reading; sample_reading], []) (PStr (lit "r-1")) (FFin 0)
              eq_refl) as (rejected & H1 & H2 & _).
  exists rejected. split; [exact H1|exact H2].
Defined.

(* ================================================================== *)
(** * Encoding, decoding and framing, further properties *)


(** ** White space around a message *)
Lemma lstrip_spaces ws s :
  forallb isspace ws = true -> lstrip (ws ++ s) = lstrip s.
Proof.
  induction ws as [|c ws IH]; [reflexivity|]. cbn [forallb app lstrip].
  intros H. apply andb_prop in H. destruct H as [-> H]. auto.
Qed.

Lemma lstrip_all_space s : forallb isspace s = true -> lstrip s = [].
Proof.
  intros H. rewrite <- (app_nil_r s). rewrite lstrip_spaces by assumption. reflexivity.
Qed.

Lemma lstrip_app s t : lstrip s <> [] -> lstrip (s ++ t) = lstrip s ++ t.
Proof.
  induction s as [|c s IH]; cbn [lstrip app]; [congruence|].
  destruct (isspace c); auto.
Qed.

Lemma lstrip_nil_all_space s : lstrip s = [] -> forallb isspace s = true.
Proof.
  induction s as [|c s IH]; [reflexivity|]. cbn [lstrip forallb].
  destruct (isspace c); [auto|discriminate].
Qed.

Lemma forallb_rev A (f : A -> bool) l : forallb f (rev l) = forallb f l.
Proof.
  induction l as [|x l IH]; [reflexivity|]. cbn [rev forallb].
  rewrite forallb_app, IH. cbn. rewrite andb_true_r. apply andb_comm.
Qed.

Lemma strip_spaces ws1 s ws2 :
  forallb isspace ws1 = true -> forallb isspace ws2 = true ->
  strip (ws1 ++ s ++ ws2) = strip s.
Proof.
  intros H1 H2. unfold strip. rewrite (@lstrip_spaces ws1 (s ++ ws2) H1). f_equal.
  destruct (lstrip s) as [|c t] eqn:E.
  - apply lstrip_nil_all_space in E.
    rewrite (@lstrip_all_space (s ++ ws2))
      by (rewrite forallb_app, E, H2; reflexivity).
    reflexivity.
  - rewrite lstrip_app by congruence. rewrite E, rev_app_distr.
    apply lstrip_spaces. rewrite forallb_rev. assumption.
Qed.

Lemma strip_all_space s : forallb isspace s = true -> strip s = [].
Proof. intros H. unfold strip. rewrite (@lstrip_all_space s H). reflexivity. Qed.

(** X14. [decode_message] refuses a line that is empty or made of white
    space only with the error [Message vide], without calling the JSON
    parser. *)
Theorem decode_message_blank (json_loads : str -> str + pyval) raw :
  forallb isspace raw = true ->
  decode_message json_loads raw = inl (ValueError TEmptyMessage).
Proof.
  intros H. unfold decode_message. rewrite strip_all_space by assumption. reflexivity.
Qed.

Lemma decode_message_blank_witness :
  decode_message (fun _ => inr PNone) [32; 9; 13]%N = inl (ValueError TEmptyMessage).
Proof.
  exact (@decode_message_blank (fun _ => inr PNone) [32; 9; 13]%N eq_refl).
Defined.

(** X15. White space before and after a message does not count:
    [decode_message] gives the same result, value or error, with and
    without it. *)
Theorem decode_message_ignores_surrounding_space
    (json_loads : str -> str + pyval) ws1 s ws2 :
  forallb isspace ws1 = true -> forallb isspace ws2 = true ->
  decode_message json_loads (ws1 ++ s ++ ws2) = decode_message json_loads s.
Proof.
  intros H1 H2. unfold decode_message. rewrite strip_spaces by assumption. reflexivity.
Qed.

Lemma decode_message_ignores_surrounding_space_witness :
  decode_message (fun s => inr (PStr s)) ([32; 9] ++ lit "{}" ++ [13; 10])%N
  = decode_message (fun s => inr (PStr s)) (lit "{}").
Proof.
  exact (@decode_message_ignores_surrounding_space (fun s => inr (PStr s))
           [32; 9]%N (lit "{}") [13; 10]%N eq_refl eq_refl).
Defined.

(** ** UTF-8 and the newline *)
Lemma byte_of_newline n : (n < 256)%N -> Utf8.byte_of n = x0a -> n = 10%N.
Proof.
  intros Hn H. apply (f_equal Byte.to_N) in H. rewrite to_N_byte_of in H by assumption.
  exact H.
Qed.

#[local] Opaque N.add N.sub N.mul N.div N.modulo.

Lemma encode_char_newline c bs :
  Utf8.encode_char c = Some bs -> In x0a bs -> c = 10%N.
Proof.
  unfold Utf8.encode_char.
  destruct (N.ltb_spec c 128) as [L1|L1].
  { intros [= <-] [H|[]]. apply byte_of_newline in H; [assumption|lia]. }
  assert (Hhi : forall n, (128 <= n < 256)%N -> x0a <> Utf8.byte_of n).
  { intros n Hn E. symmetry in E. apply byte_of_newline in E; lia. }
  destruct (N.ltb_spec c 2048) as [L2|L2].
  { intros [= <-] H. exfalso. cbn [In] in H.
    destruct H as [H|[H|[]]]; symmetry in H; revert H; apply Hhi; lia. }
  destruct (N.ltb_spec c 65536) as [L3|L3].
  { destruct (Utf8.is_surrogate c); [discriminate|].
    intros [= <-] H. exfalso. cbn [In] in H.
    destruct H as [H|[H|[H|[]]]]; symmetry in H; revert H; apply Hhi; lia. }
  destruct (N.ltb_spec c 1114112) as [L4|L4]; [|discriminate].
  intros [= <-] H. exfalso. cbn [In] in H.
  destruct H as [H|[H|[H|[H|[]]]]]; symmetry in H; revert H; apply Hhi; lia.
Qed.

#[local] Transparent N.add N.sub N.mul N.div N.modulo.

Lemma encode_newline s : forall bs,
  Utf8.encode s = Some bs -> In x0a bs -> In 10%N s.
Proof.
  induction s as [|c s IH]; cbn [Utf8.encode]; intros bs.
  - intros [= <-] [].
  - destruct (Utf8.encode_char c) as [b|] eqn:Ec; [|discriminate].
    destruct (Utf8.encode s) as [bs'|]; [|discriminate].
    intros [= <-] H. apply in_app_or in H. destruct H as [H|H].
    + left. eapply encode_char_newline; eauto.
    + right. eapply IH; eauto.
Qed.

Lemma encode_app s1 : forall s2 b1 b2,
  Utf8.encode s1 = Some b1 -> Utf8.encode s2 = Some b2 ->
  Utf8.encode (s1 ++ s2) = Some (b1 ++ b2).
Proof.
  induction s1 as [|c s1 IH]; cbn [Utf8.encode app]; intros s2 b1 b2.
  - intros [= <-] H. exact H.
  - destruct (Utf8.encode_char c) as [b|]; [|discriminate].
    destruct (Utf8.encode s1) as [bs'|]; [|discriminate].
    intros [= <-] H. rewrite (IH s2 bs' b2 eq_refl H), app_assoc. reflexivity.
Qed.

Lemma encode_app_inv s1 : forall s2 bs,
  Utf8.encode (s1 ++ s2) = Some bs ->
  exists b1 b2, Utf8.encode s1 = Some b1 /\ Utf8.encode s2 = Some b2 /\ bs = b1 ++ b2.
Proof.
  induction s1 as [|c s1 IH]; cbn [Utf8.encode app]; intros s2 bs.
  - intros H. exists [], bs. auto.
  - destruct (Utf8.encode_char c) as [b|]; [|discriminate].
    destruct (Utf8.encode (s1 ++ s2)) as [bs'|] eqn:E; [|discriminate].
    intros [= <-]. destruct (IH s2 bs' E) as (b1 & b2 & -> & -> & ->).
    exists (b ++ b1), b2. rewrite app_assoc. auto.
Qed.

(** The bytes of an encoded message: the encoded text and one newline. *)
Lemma encode_message_bytes (json_dumps : pyval -> str) msg data :
  encode_message json_dumps msg = inr data ->
  exists body, Utf8.encode (json_dumps msg) = Some body /\ data = body ++ [x0a].
Proof.
  unfold encode_message.
  destruct (Utf8.encode (json_dumps msg ++ [10%N])) as [bs|] eqn:E; [|discriminate].
  intros [= <-]. apply encode_app_inv in E. destruct E as (b1 & b2 & E1 & E2 & ->).
  cbn in E2. injection E2 as <-. eauto.
Qed.

Lemma find_newline_not_in a : ~ In x0a a -> find_newline a = None.
Proof.
  induction a as [|x a IH]; [reflexivity|]. cbn [find_newline In]. intros H.
  destruct (Byte.eqb x newline) eqn:E.
  - apply Byte.byte_dec_bl in E. unfold newline in E. tauto.
  - rewrite IH by tauto. reflexivity.
Qed.

Lemma find_newline_first a b :
  ~ In x0a a -> find_newline (a ++ x0a :: b) = Some (List.length a).
Proof.
  induction a as [|x a IH]; [reflexivity|]. cbn [find_newline In app List.length]. intros H.
  destruct (Byte.eqb x newline) eqn:E.
  - apply Byte.byte_dec_bl in E. unfold newline in E. tauto.
  - rewrite IH by tauto. reflexivity.
Qed.

(** X16. When the JSON text of a message holds no line feed, the bytes
    [encode_message] returns are one line: the UTF-8 encoding of the text,
    which holds no newline byte, followed by a single newline, which is so
    the first newline of the data. *)
Theorem encode_message_one_line (json_dumps : pyval -> str) msg data :
  encode_message json_dumps msg = inr data ->
  ~ In 10%N (json_dumps msg) ->
  exists body,
    data = body ++ [x0a]
    /\ ~ In x0a body
    /\ Utf8.decode body = Some (json_dumps msg)
    /\ find_newline data = Some (List.length body).
Proof.
  intros He Hn. destruct (encode_message_bytes _ _ He) as (body & E & ->).
  exists body. split; [reflexivity|].
  assert (Hb : ~ In x0a body) by (intros H; apply Hn; eapply encode_newline; eauto).
  split; [exact Hb|]. split; [apply decode_encode; exact E|].
  apply find_newline_first; exact Hb.
Qed.

Lemma encode_message_one_line_witness :
  encode_message (fun _ => lit "{}") (PDict []) = inr [x7b; x7d; x0a]
  /\ exists body,
       [x7b; x7d; x0a] = body ++ [x0a]
       /\ ~ In x0a body
       /\ Utf8.decode body = Some (lit "{}")
       /\ find_newline [x7b; x7d; x0a] = Some (List.length body).
Proof.
  split; [reflexivity|].
  apply (@encode_message_one_line (fun _ => lit "{}") (PDict []) [x7b; x7d; x0a]
           eq_refl).
  intros [H|[H|[]]]; discriminate H.
Defined.

Lemma find_newline_split a pos :
  find_newline a = Some pos ->
  a = firstn pos a ++ x0a :: skipn (S pos) a /\ find_newline (firstn pos a) = None.
Proof.
  revert pos. induction a as [|x a IH]; intros pos; cbn [find_newline]; [discriminate|].
  destruct (Byte.eqb x newline) eqn:E.
  - intros [= <-]. apply Byte.byte_dec_bl in E. subst x. auto.
  - destruct (find_newline a) as [n|]; [|discriminate]. intros [= <-].
    destruct (IH n eq_refl) as [H1 H2]. cbn [firstn skipn app find_newline].
    rewrite E, H2. split; [f_equal; exact H1|reflexivity].
Qed.

Lemma received_cons_data c conn : received (Data c :: conn) = c ++ received conn.
Proof. reflexivity. Qed.

(** X17. [recv_line] neither loses nor reorders a byte. The bytes of the
    buffer followed by the bytes it took from the socket are: the line it
    returns, its newline and the new buffer; or, when the peer closed on a
    buffer that was not empty, the line alone; or nothing, when it returns
    [None]; or, when it raises, the new buffer. The line holds no newline,
    and what it did not take is still to be read. *)
Theorem recv_line_conserves_bytes conn : forall buffer max_size,
  let '(r, buffer', conn') := recv_line conn buffer max_size in
  exists consumed,
    received conn = consumed ++ received conn'
    /\ match r with
       | inr (Some line) =>
           exists line_bytes,
             Utf8.decode line_bytes = Some line
             /\ find_newline line_bytes = None
             /\ (buffer ++ consumed = line_bytes ++ x0a :: buffer'
                 \/ (buffer ++ consumed = line_bytes /\ buffer' = []
                     /\ line_bytes <> []))
       | inr None => buffer ++ consumed = [] /\ buffer' = []
       | inl _ => buffer' = buffer ++ consumed
       end.
Proof.
  assert (Hnl : forall buffer conn0 pos,
    find_newline buffer = Some pos ->
    let '(r, buffer', conn') :=
      match decode_utf8 (firstn pos buffer) with
      | inr line => (ok (Some line), skipn (S pos) buffer, conn0)
      | inl e => (raise e, buffer, conn0)
      end in
    exists consumed,
      received conn0 = consumed ++ received conn'
      /\ match r with
         | inr (Some line) =>
             exists line_bytes,
               Utf8.decode line_bytes = Some line
               /\ find_newline line_bytes = None
               /\ (buffer ++ consumed = line_bytes ++ x0a :: buffer'
                   \/ (buffer ++ consumed = line_bytes /\ buffer' = []
                       /\ line_bytes <> []))
         | inr None => buffer ++ consumed = [] /\ buffer' = []
         | inl _ => buffer' = buffer ++ consumed
         end).
  { intros buffer conn0 pos Hn. destruct (find_newline_split _ Hn) as [Hs Hf].
    unfold decode_utf8. destruct (Utf8.decode (firstn pos buffer)) as [line|] eqn:E;
      cbn [ok raise]; exists []; (split; [reflexivity|]); rewrite app_nil_r.
    - exists (firstn pos buffer). auto.
    - reflexivity. }
  assert (Hcl : forall buffer conn0 prefix,
    find_newline buffer = None ->
    received prefix = [] ->
    let '(r, buffer', conn') := connection_closed buffer conn0 in
    exists consumed,
      received (prefix ++ conn0) = consumed ++ received conn'
      /\ match r with
         | inr (Some line) =>
             exists line_bytes,
               Utf8.decode line_bytes = Some line
               /\ find_newline line_bytes = None
               /\ (buffer ++ consumed = line_bytes ++ x0a :: buffer'
                   \/ (buffer ++ consumed = line_bytes /\ buffer' = []
                       /\ line_bytes <> []))
         | inr None => buffer ++ consumed = [] /\ buffer' = []
         | inl _ => buffer' = buffer ++ consumed
         end).
  { intros buffer conn0 prefix Hn Hp. unfold connection_closed, decode_utf8.
    assert (Hr : received (prefix ++ conn0) = [] ++ received conn0).
    { unfold received in *. rewrite map_app, concat_app, Hp. reflexivity. }
    destruct buffer as [|b buffer];
      [exists []; split; [exact Hr|split; reflexivity]|].
    destruct (Utf8.decode (b :: buffer)) as [line|] eqn:E; cbn [ok raise];
      exists []; (split; [exact Hr|]); rewrite app_nil_r; [|reflexivity].
    exists (b :: buffer). repeat split; auto. right. repeat split; auto. discriminate. }
  induction conn as [|ev conn IH]; intros buffer max_size; cbn [recv_line].
  - destruct (find_newline buffer) as [pos|] eqn:Hn; [exact (Hnl buffer [] pos Hn)|].
    exact (Hcl buffer [] [] Hn eq_refl).
  - destruct (find_newline buffer) as [pos|] eqn:Hn; [exact (Hnl buffer _ pos Hn)|].
    destruct ev as [chunk| |].
    + destruct chunk as [|b chunk].
      * exact (Hcl buffer conn [Data []] Hn eq_refl).
      * destruct (Z.of_nat (List.length (buffer ++ b :: chunk)) >? max_size).
        -- exists (b :: chunk). split; reflexivity.
        -- specialize (IH (buffer ++ b :: chunk) max_size).
           destruct (recv_line conn (buffer ++ b :: chunk) max_size) as [[r buffer'] conn'].
           destruct IH as (consumed & Hr & Hm).
           exists ((b :: chunk) ++ consumed). rewrite received_cons_data, Hr.
           split; [rewrite app_assoc; reflexivity|].
           rewrite app_assoc. exact Hm.
    + exists []. split; [reflexivity|]. rewrite app_nil_r. reflexivity.
    + exists []. split; [reflexivity|]. rewrite app_nil_r. reflexivity.
Qed.

(** X18. A buffer within [max_size] is still within [max_size] after
    [recv_line], whether it returns a line, returns [None] or raises,
    unless what it raises is the error of a message over the limit. *)
Theorem recv_line_buffer_bound conn : forall buffer max_size,
  Z.of_nat (List.length buffer) <= max_size ->
  let '(r, buffer', _) := recv_line conn buffer max_size in
  is_too_large r = false -> Z.of_nat (List.length buffer') <= max_size.
Proof.
  assert (Hcl : forall buffer conn0 max_size,
    Z.of_nat (List.length buffer) <= max_size ->
    let '(r, buffer', _) := connection_closed buffer conn0 in
    is_too_large r = false -> Z.of_nat (List.length buffer') <= max_size).
  { intros buffer conn0 max_size Hb. unfold connection_closed, decode_utf8.
    destruct buffer as [|b buffer]; [auto|].
    destruct (Utf8.decode (b :: buffer)); cbn [ok raise]; intros _; [cbn; lia|exact Hb]. }
  induction conn as [|ev conn IH]; intros buffer max_size Hb; cbn [recv_line].
  - destruct (find_newline buffer) as [pos|] eqn:Hn; [|apply Hcl; exact Hb].
    unfold decode_utf8. destruct (Utf8.decode (firstn pos buffer)); cbn [ok raise];
      intros _; [|exact Hb].
    rewrite length_skipn. lia.
  - destruct (find_newline buffer) as [pos|] eqn:Hn.
    { unfold decode_utf8. destruct (Utf8.decode (firstn pos buffer)); cbn [ok raise];
        intros _; [|exact Hb].
      rewrite length_skipn. lia. }
    destruct ev as [chunk| |]; [|intros _; exact Hb|intros _; exact Hb].
    destruct chunk as [|b chunk]; [apply Hcl; exact Hb|].
    destruct (Z.gtb_spec (Z.of_nat (List.length (buffer ++ b :: chunk))) max_size).
    + cbn. discriminate.
    + apply IH. assumption.
Qed.

Lemma recv_line_buffer_bound_witness :
  recv_line [Data [x61; x0a; x62; x63]] [] 4 = (inr (Some (lit "a")), [x62; x63], [])
  /\ Z.of_nat (List.length [x62; x63]) <= 4.
Proof.
  split; [reflexivity|].
  refine (@recv_line_buffer_bound [Data [x61; x0a; x62; x63]] [] 4 _ eq_refl).
  cbn; lia.
Defined.

(** X19. When the socket times out or fails before a whole line has
    arrived, [recv_line] lets the exception through ([socket.timeout] or
    [OSError]); the bytes read so far stay in the buffer and the rest of
    the stream is not touched. *)
Theorem recv_line_transport_failure chunks ev rest buffer max_size :
  Forall (fun c => c <> []) chunks ->
  find_newline (buffer ++ List.concat chunks) = None ->
  Z.of_nat (List.length (buffer ++ List.concat chunks)) <= max_size ->
  (ev = RecvTimeout \/ ev = RecvError) ->
  recv_line (List.map Data chunks ++ ev :: rest) buffer max_size
  = (inl (match ev with RecvTimeout => SocketTimeout | _ => OSError end),
     buffer ++ List.concat chunks, rest).
Proof.
  intros Hne. revert buffer.
  induction Hne as [|c chunks Hc _ IH]; intros buffer Hn Hle Hev.
  - cbn [List.map List.concat app] in *. rewrite app_nil_r in *.
    cbn [recv_line]. rewrite Hn. destruct Hev as [-> | ->]; reflexivity.
  - cbn [List.concat List.map app] in *. rewrite app_assoc in Hn, Hle.
    rewrite recv_line_data.
    + rewrite IH by assumption. rewrite <- app_assoc. reflexivity.
    + apply find_newline_app_None in Hn. apply find_newline_app_None in Hn. exact Hn.
    + exact Hc.
    + rewrite !length_app in *. lia.
Qed.

Lemma recv_line_transport_failure_witness :
  recv_line [Data [x61; x62]; RecvTimeout; Data [x0a]] [] 4
  = (inl SocketTimeout, [x61; x62], [Data [x0a]]).
Proof.
  refine (@recv_line_transport_failure [[x61; x62]] RecvTimeout [Data [x0a]] [] 4
            _ _ _ _).
  - repeat constructor; discriminate.
  - reflexivity.
  - cbn; lia.
  - left; reflexivity.
Defined.

(** A buffer and chunks that make up one line ended by its newline. *)
Lemma recv_line_whole_line chunks : forall buffer body rest max_size,
  Forall (fun c => c <> []) chunks ->
  buffer ++ List.concat chunks = body ++ [x0a] ->
  ~ In x0a body ->
  Z.of_nat (List.length (body ++ [x0a])) <= max_size ->
  recv_line (List.map Data chunks ++ rest) buffer max_size
  = match decode_utf8 body with
    | inr line => (inr (Some line), [], rest)
    | inl e => (inl e, body ++ [x0a], rest)
    end.
Proof.
  induction chunks as [|c chunks IH]; intros buffer body rest max_size Hne Heq Hb Hmax.
  - cbn [List.concat List.map app] in *. rewrite app_nil_r in Heq. subst buffer.
    assert (Hn : find_newline (body ++ [x0a]) = Some (List.length body))
      by (apply find_newline_first; exact Hb).
    assert (E1 : firstn (List.length body) (body ++ [x0a]) = body).
    { rewrite firstn_app, Nat.sub_diag, firstn_all. cbn. apply app_nil_r. }
    assert (E2 : skipn (S (List.length body)) (body ++ [x0a]) = []).
    { apply skipn_all2. rewrite length_app. cbn. lia. }
    destruct rest as [|ev rest]; cbn [recv_line]; rewrite Hn, E1, E2;
      destruct (decode_utf8 body); reflexivity.
  - inversion Hne as [|? ? Hc Hne']; subst. cbn [List.concat List.map app] in *.
    assert (Hlen : (List.length buffer <= List.length body)%nat).
    { apply (f_equal (@List.length byte)) in Heq. rewrite !length_app in Heq.
      cbn [List.length] in Heq. destruct c; [congruence|]. cbn [List.length] in Heq. lia. }
    assert (Hn : find_newline buffer = None).
    { apply find_newline_not_in. intros Hin. apply Hb.
      destruct (app_eq_app _ _ _ _ Heq) as [l [[E _]|[E _]]].
      - assert (l = []) as ->.
        { apply (f_equal (@List.length byte)) in E. rewrite length_app in E.
          destruct l; [reflexivity|cbn [List.length] in E; lia]. }
        rewrite app_nil_r in E. congruence.
      - rewrite E. apply in_or_app. auto. }
    rewrite recv_line_data; auto.
    + apply IH; auto. rewrite <- app_assoc. exact Heq.
    + apply (f_equal (@List.length byte)) in Heq. rewrite !length_app in *. lia.
Qed.

Lemma recv_line_encoded_message
    (json_dumps : pyval -> str) (json_loads : str -> str + pyval)
    (msg : pyval) (data : bytes) (chunks : list bytes)
    (rest : list recv_event) (max_size : Z) :
  encode_message json_dumps msg = inr data ->
  ~ In 10%N (json_dumps msg) ->
  braced (json_dumps msg) ->
  json_loads (json_dumps msg) = inr msg ->
  Forall (fun c => c <> []) chunks ->
  List.concat chunks = data ->
  Z.of_nat (List.length data) <= max_size ->
  exists line,
    recv_line (List.map Data chunks ++ rest) [] max_size = (inr (Some line), [], rest)
    /\ line = json_dumps msg
    /\ decode_message json_loads line = inr msg.
Proof.
  intros He Hn Hb Hl Hne Hc Hmax.
  destruct (encode_message_bytes _ _ He) as (body & E & ->).
  assert (Hnb : ~ In x0a body) by (intros H; apply Hn; eapply encode_newline; eauto).
  exists (json_dumps msg). split; [|split; [reflexivity|]].
  - rewrite (@recv_line_whole_line chunks [] body rest max_size Hne Hc Hnb Hmax).
    unfold decode_utf8. rewrite (decode_encode _ E). reflexivity.
  - destruct (strip_braced_line Hb) as [Hs Ht].
    assert (Hs' : strip (json_dumps msg) = json_dumps msg).
    { pose proof (@strip_spaces [] (json_dumps msg) [10%N] eq_refl eq_refl) as H.
      cbn [app] in H. rewrite <- H. exact Hs. }
    unfold decode_message. rewrite Hs', Ht. cbn [negb].
    rewrite Hl. reflexivity.
Qed.

(** X20. A message written by [encode_message] and cut into chunks in
    any way is read back by one [recv_line] call as the JSON text of the
    message, leaving the buffer empty, and [decode_message] gives the
    message back, provided the text holds no line feed, the data fit
    [max_size] and [json.loads] inverts [json.dumps] on the message. *)
Theorem framed_message_round_trip
    (json_dumps : pyval -> str) (json_loads : str -> str + pyval)
    (msg : pyval) (data : bytes) (chunks : list bytes)
    (rest : list recv_event) (max_size : Z) :
  encode_message json_dumps msg = inr data ->
  ~ In 10%N (json_dumps msg) ->
  braced (json_dumps msg) ->
  json_loads (json_dumps msg) = inr msg ->
  Forall (fun c => c <> []) chunks ->
  List.concat chunks = data ->
  Z.of_nat (List.length data) <= max_size ->
  exists line,
    recv_line (List.map Data chunks ++ rest) [] max_size = (inr (Some line), [], rest)
    /\ line = json_dumps msg
    /\ decode_message json_loads line = inr msg.
Proof. apply recv_line_encoded_message. Qed.

Lemma split_lines_line body : forall current rest,
  ~ In x0a body ->
  split_lines current (body ++ x0a :: rest) = (current ++ body) :: split_lines [] rest.
Proof.
  induction body as [|b body IH]; intros current rest Hn; cbn [app split_lines].
  - rewrite app_nil_r. reflexivity.
  - destruct (Byte.eqb b newline) eqn:E.
    + apply Byte.byte_dec_bl in E. exfalso. apply Hn. left. exact E.
    + rewrite IH by (intros H; apply Hn; right; exact H).
      rewrite <- app_assoc. reflexivity.
Qed.

Lemma framed_message_round_trip_witness :
  exists line,
    recv_line [Data [x7b]; Data [x7d; x0a]] [] 3 = (inr (Some line), [], [])
    /\ line = lit "{}"
    /\ decode_message (fun _ => inr (PDict [])) line = inr (PDict []).
Proof.
  refine (@framed_message_round_trip (fun _ => lit "{}") (fun _ => inr (PDict []))
            (PDict []) [x7b; x7d; x0a] [[x7b]; [x7d; x0a]] [] 3
            eq_refl _ _ eq_refl _ eq_refl _).
  - intros [H|[H|[]]]; discriminate H.
  - exists []. reflexivity.
  - repeat constructor; discriminate.
  - cbn; lia.
Defined.

Lemma stream_lines_messages (json_dumps : pyval -> str) msgs : forall datas,
  Forall2 (fun m d => encode_message json_dumps m = inr d) msgs datas ->
  Forall (fun m => ~ In 10%N (json_dumps m)) msgs ->
  stream_lines (List.concat datas) = (List.map json_dumps msgs, EndOfStream).
Proof.
  unfold stream_lines.
  induction msgs as [|m msgs IH]; intros datas H2 Hn; inversion H2 as [|? d ? ds He H2']; subst.
  - reflexivity.
  - inversion Hn as [|? ? Hm Hn']; subst.
    destruct (encode_message_bytes _ _ He) as (body & E & ->).
    assert (Hnb : ~ In x0a body) by (intros H; apply Hm; eapply encode_newline; eauto).
    cbn [List.concat List.map]. rewrite <- app_assoc. cbn [app].
    rewrite split_lines_line by exact Hnb. cbn [app decode_all].
    rewrite (decode_encode _ E), (IH ds H2' Hn'). reflexivity.
Qed.

(** X21. Several messages written one after the other on a connection,
    cut into chunks in any way, come out of repeated [recv_line] calls on
    one buffer one by one and in order, followed by [None], when the whole
    stream fits [max_size]. *)
Theorem pipelined_messages
    (json_dumps : pyval -> str) (msgs : list pyval) (datas chunks : list bytes)
    (max_size : Z) :
  Forall2 (fun m d => encode_message json_dumps m = inr d) msgs datas ->
  Forall (fun m => ~ In 10%N (json_dumps m)) msgs ->
  Forall (fun c => c <> []) chunks ->
  List.concat chunks = List.concat datas ->
  Z.of_nat (List.length (List.concat datas)) <= max_size ->
  decoded_lines (List.map Data chunks) max_size
  = (List.map json_dumps msgs, EndOfStream).
Proof.
  intros H2 Hn Hne Hc Hmax. unfold decoded_lines. rewrite received_data.
  rewrite read_lines_stream; cbn [app]; rewrite ?Hc; auto.
  apply stream_lines_messages; assumption.
Qed.

Lemma pipelined_messages_witness :
  decoded_lines
    [Data [x7b]; Data [x7d; x0a; x7b; x7d]; Data [x0a]] 6
  = ([lit "{}"; lit "{}"], EndOfStream).
Proof.
  refine (@pipelined_messages (fun _ => lit "{}") [PDict []; PDict []]
            [[x7b; x7d; x0a]; [x7b; x7d; x0a]]
            [[x7b]; [x7d; x0a; x7b; x7d]; [x0a]] 6 _ _ _ eq_refl _).
  - repeat constructor.
  - repeat constructor; intros [H|[H|[]]]; discriminate H.
  - repeat constructor; discriminate.
  - cbn; lia.
Defined.

(* ================================================================== *)
(** * The server, further properties *)

Section ExchangeFacts.
Variable json_dumps : pyval -> str.
Variable json_loads : str -> str + pyval.
Variable fromisoformat_ok : str -> bool.
Variable render : text -> str.
Variable uuid4 : nat -> str.
Variable now : nat -> str.
Variable elapsed_ms : nat -> pyfloat.

Let handle := handle_client json_dumps json_loads fromisoformat_ok render
                uuid4 now elapsed_ms.
Let serve := run_server json_dumps json_loads fromisoformat_ok render
               uuid4 now elapsed_ms.

Lemma sendall_soft data c :
  send_fails_softly c = true ->
  match fst (sendall data c) with
  | inl e => is_OSError e = true
  | inr _ => True
  end.
Proof.
  unfold send_fails_softly, sendall.
  destruct (sendall_script c) as [|[e|] script]; cbn; auto.
Qed.

Ltac run_handler :=
  unfold handle, handle_client, try_body, mbind, read_message, lift, set_request_id;
  cbn [conn request_id].

Ltac step H := rewrite H; cbn [ok conn request_id].

Lemma soft_send_outcome data c rid :
  send_fails_softly c = true ->
  send data (mk_frame c rid)
  = (fst (sendall data c), mk_frame (snd (sendall data c)) rid)
  /\ match fst (sendall data c) with
     | inr _ => sent (snd (sendall data c)) = sent c ++ [data]
     | inl e => is_OSError e = true /\ sent (snd (sendall data c)) = sent c
     end.
Proof.
  unfold send_fails_softly, send, sendall. cbn [conn request_id].
  destruct (sendall_script c) as [|[e|] script]; cbn [fst snd sent]; intros H;
    repeat split; auto.
Qed.

(** What [answered] holds: the data, unless the [sendall] call failed. *)
Lemma answered_sent c rest data :
  (send_succeeds c = true -> sent (answered c rest data) = sent c ++ [data])
  /\ (send_succeeds c = false -> sent (answered c rest data) = sent c).
Proof.
  unfold send_succeeds, answered, with_incoming, sendall. cbn.
  destruct (sendall_script c) as [|[e|] script]; split; try discriminate;
    reflexivity.
Qed.

(** [encode_message] raises nothing but [UnicodeEncodeError], a
    [ValueError]. *)
Lemma encode_message_error msg e :
  encode_message json_dumps msg = inl e ->
  e = ValueError (TUnicodeEncode (json_dumps msg ++ [10%N])).
Proof.
  unfold encode_message. destruct (Utf8.encode _); [discriminate|].
  intros [= <-]. reflexivity.
Qed.

(** The parsing clause when the envelope it builds goes to [sendall]. *)
Lemma parsing_handler_answers k e c rid data :
  encode_message json_dumps
    (build_message (uuid4 (S k)) (now (S k)) (lit "error")
       (error_payload render (exn_text e)) rid) = inr data ->
  send_fails_softly c = true ->
  parsing_handler json_dumps render uuid4 now k e (mk_frame c rid)
  = (None, snd (sendall data c)).
Proof.
  intros He Hs. unfold parsing_handler, mbind, lift. cbn [request_id].
  rewrite He.
  destruct (@soft_send_outcome data c rid Hs) as [E Ho].
  rewrite E. destruct (fst (sendall data _)) as [e'|u]; [|reflexivity].
  destruct Ho as [Ho _]. rewrite Ho. reflexivity.
Qed.

(** X22. A message whose [type] is not [ingest_request] gets an [error]
    envelope that names the type, under the request id of the message, or
    a fresh one when that id is falsy. When the envelope can be encoded,
    it goes to [sendall] once, an [OSError] of [sendall] is absorbed, the
    socket is closed and [handle_client] returns. When it cannot (a lone
    surrogate in the type or the request id), the parsing clause builds a
    second envelope, with the text of the [UnicodeEncodeError], under the
    same request id: it goes to [sendall] in the same way if it can be
    encoded, and if not, the second [UnicodeEncodeError] leaves
    [handle_client], with the socket closed and no [sendall] call made. *)
Theorem unsupported_type_answered k c text buffer rest msg rid msg_type :
  recv_line (incoming c) [] MAX_MESSAGE_SIZE = (inr (Some text), buffer, rest) ->
  decode_message json_loads text = inr msg ->
  py_get msg (lit "request_id") (PStr (lit "unknown")) = inr rid ->
  py_get msg (lit "type") (PStr []) = inr msg_type ->
  py_eq_str msg_type (lit "ingest_request") = false ->
  send_fails_softly c = true ->
  let reply :=
    build_message (uuid4 k) (now k) (lit "error")
      (error_payload render (TUnsupportedType msg_type)) rid in
  let second e :=
    build_message (uuid4 (S k)) (now (S k)) (lit "error")
      (error_payload render (exn_text e)) rid in
  envelope_request_id reply = inr (if truthy rid then rid else PStr (uuid4 k))
  /\ (forall data,
        encode_message json_dumps reply = inr data ->
        handle k c = (None, answered c rest data)
        /\ (send_succeeds c = true -> sent (answered c rest data) = sent c ++ [data]))
  /\ (forall e data,
        encode_message json_dumps reply = inl e ->
        encode_message json_dumps (second e) = inr data ->
        handle k c = (None, answered c rest data)
        /\ (send_succeeds c = true -> sent (answered c rest data) = sent c ++ [data]))
  /\ (forall e e',
        encode_message json_dumps reply = inl e ->
        encode_message json_dumps (second e) = inl e' ->
        handle k c = (Some e', close (with_incoming c rest))
        /\ is_OSError e' = false
        /\ sent (close (with_incoming c rest)) = sent c).
Proof.
  intros Hr Hd Hrid Hty Hne Hs reply second.
  split; [reflexivity|]. split; [|split].
  - intros data He. split; [|apply answered_sent].
    run_handler. step Hr. step Hd. step Hrid. step Hty. rewrite Hne. cbn [negb].
    fold reply. step He.
    destruct (@soft_send_outcome data (with_incoming c rest) rid Hs) as [E Ho].
    unfold with_incoming in E. rewrite E. unfold answered, with_incoming.
    destruct (fst (sendall data _)) as [e|u]; [|reflexivity].
    destruct Ho as [Ho _]. destruct e; try discriminate Ho; reflexivity.
  - intros e data He He2. split; [|apply answered_sent].
    pose proof (encode_message_error _ He) as Ee.
    run_handler. step Hr. step Hd. step Hrid. step Hty. rewrite Hne. cbn [negb].
    fold reply. rewrite He. cbv beta iota. rewrite Ee. cbn [is_ValueError orb].
    rewrite <- Ee.
    pose proof (@parsing_handler_answers k e (with_incoming c rest) rid data He2 Hs)
      as Hh.
    unfold with_incoming in Hh. rewrite Hh. reflexivity.
  - intros e e' He He2.
    pose proof (encode_message_error _ He) as Ee.
    pose proof (encode_message_error _ He2) as Ee'.
    split; [|split; [rewrite Ee'; reflexivity|reflexivity]].
    run_handler. step Hr. step Hd. step Hrid. step Hty. rewrite Hne. cbn [negb].
    fold reply. rewrite He. cbv beta iota. rewrite Ee. cbn [is_ValueError orb].
    rewrite <- Ee.
    unfold parsing_handler, mbind, lift. cbn [request_id]. fold (second e).
    rewrite He2. rewrite Ee'. reflexivity.
Qed.

(** X23. When the read fails with a time-out or another [OSError], or the
    peer closes before sending anything, [handle_client] sends nothing,
    closes the socket and returns. *)
Theorem read_failure_is_silent k c r buffer rest :
  recv_line (incoming c) [] MAX_MESSAGE_SIZE = (r, buffer, rest) ->
  match r with
  | inl e => is_OSError e = true
  | inr None => True
  | inr (Some _) => False
  end ->
  handle k c = (None, close (with_incoming c rest))
  /\ sent (close (with_incoming c rest)) = sent c.
Proof.
  intros Hr Hcase. split; [|reflexivity]. run_handler. rewrite Hr.
  destruct r as [e|[line|]]; [|contradiction|reflexivity].
  destruct e; try discriminate Hcase; reflexivity.
Qed.

(** X24. When [recv_line] or [decode_message] raises a [ValueError] (a
    message over the size limit, bytes that are not UTF-8, an empty line,
    text that is not JSON), [handle_client] answers with one [error]
    envelope built under the request id [unknown], closes the socket and
    returns; the envelope is sent unless [sendall] fails with an
    [OSError], which is absorbed. *)
Theorem unreadable_message_answered k c r buffer rest t data :
  recv_line (incoming c) [] MAX_MESSAGE_SIZE = (r, buffer, rest) ->
  (r = inl (ValueError t)
   \/ exists text, r = inr (Some text)
                   /\ decode_message json_loads text = inl (ValueError t)) ->
  encode_message json_dumps
    (build_message (uuid4 (S k)) (now (S k)) (lit "error")
       (error_payload render t) unknown) = inr data ->
  send_fails_softly c = true ->
  handle k c = (None, answered c rest data)
  /\ (send_succeeds c = true -> sent (answered c rest data) = sent c ++ [data])
  /\ (send_succeeds c = false -> sent (answered c rest data) = sent c).
Proof.
  intros Hr Hcase He Hs. split; [|split].
  - assert (Hh : parsing_handler json_dumps render uuid4 now k (ValueError t)
                   (mk_frame (with_incoming c rest) unknown)
                 = (None, snd (sendall data (with_incoming c rest)))).
    { unfold parsing_handler, mbind, lift. cbn [request_id exn_text].
      fold unknown in He |- *. rewrite He.
      destruct (@soft_send_outcome data (with_incoming c rest) unknown Hs) as [E Ho].
      rewrite E. destruct (fst (sendall data _)) as [e|u]; [|reflexivity].
      destruct Ho as [Ho _]. rewrite Ho. reflexivity. }
    run_handler. rewrite Hr. fold unknown.
    destruct Hcase as [-> | (text & -> & Hd)].
    + cbv beta iota. cbn [is_ValueError orb].
      unfold with_incoming in Hh. rewrite Hh. reflexivity.
    + cbv beta iota. rewrite Hd. cbv beta iota. cbn [is_ValueError orb].
      unfold with_incoming in Hh. rewrite Hh. reflexivity.
  - apply answered_sent.
  - apply answered_sent.
Qed.

Lemma escaped_is_not_oserror k c e :
  fst (handle k c) = Some e -> is_OSError e = false.
Proof.
  unfold handle, handle_client.
  destruct (try_body _ _ _ _ _ _ _ k _) as [r f].
  destruct r as [e0|u]; [|discriminate].
  assert (Hp : forall e1, fst (parsing_handler json_dumps render uuid4 now k e1 f) = Some e ->
                          is_OSError e = false).
  { intros e1. unfold parsing_handler.
    destruct ((_ <~ _ ;; _)%handler f) as [[e2|u] f']; cbn [fst]; [|discriminate].
    destruct (is_OSError e2) eqn:E; [discriminate|]. intros [= <-]. exact E. }
  destruct e0; cbn [is_ValueError is_KeyError is_OSError orb]; try discriminate.
  - specialize (Hp (ValueError t)). destruct (parsing_handler _ _ _ _ _ _ _). exact Hp.
  - specialize (Hp (KeyError key)). destruct (parsing_handler _ _ _ _ _ _ _). exact Hp.
  - cbn. intros [= <-]. reflexivity.
  - cbn. intros [= <-]. reflexivity.
Qed.

(** X25. Of the exceptions the code of [handle_client] raises (time-out,
    [OSError], [ValueError], [KeyError], [AttributeError], [TypeError]),
    one that leaves [handle_client] is never a time-out or another
    [OSError]. The clause [except OSError] of the accept loop, the only one
    after which the loop goes on, so never applies to it: [run_server]
    stops with the exception, that one socket handled, whatever connections
    were still to come. A [KeyboardInterrupt] delivered while
    [handle_client] runs is not one of these exceptions; the model has it
    at [accept] only. *)
Theorem escaped_exception_stops_server k c e c' events :
  handle k c = (Some e, c') ->
  is_OSError e = false
  /\ serve k (Accepted c :: events) = (Crashed e, [c']).
Proof.
  intros H.
  assert (He : is_OSError e = false) by (apply (@escaped_is_not_oserror k c); rewrite H; reflexivity).
  split; [exact He|].
  unfold serve. cbn [run_server]. fold handle. rewrite H, He. reflexivity.
Qed.

Lemma handle_closes k c : closed (snd (handle k c)) = true.
Proof.
  exact (proj1 (handle_client_at_most_one_message json_dumps json_loads
                  fromisoformat_ok render uuid4 now elapsed_ms k c)).
Qed.

(** X26. The accept loop of [run_server]: every socket it handled is
    closed, and it handled at most one per accepted connection; what
    follows a keyboard interrupt is never looked at, and the server is then
    no longer listening; a failed [accept] changes nothing, the loop goes
    on as if it had not happened. *)
Theorem run_server_loop k events :
  Forall (fun c => closed c = true) (snd (serve k events))
  /\ (List.length (snd (serve k events)) <= accepted_events events)%nat
  /\ (forall pre post,
        events = pre ++ KeyboardInterrupt :: post ->
        serve k events = serve k (pre ++ [KeyboardInterrupt])
        /\ fst (serve k events) <> Listening)
  /\ serve k (filter (fun ev => match ev with AcceptError => false | _ => true end)
                events)
     = serve k events.
Proof.
  split; [|split; [|split]].
  - revert k. induction events as [|ev events IH]; intros k; [constructor|].
    unfold serve in *. cbn [run_server].
    destruct ev as [c| |]; [|apply IH|constructor].
    fold handle. pose proof (handle_closes k c) as Hc.
    destruct (handle k c) as [[e|] c']; cbn [snd] in Hc.
    + destruct (is_OSError e); [|repeat constructor; exact Hc].
      specialize (IH (2 + k)%nat).
      destruct (run_server _ _ _ _ _ _ _ (2 + k) events) as [st cs].
      constructor; assumption.
    + specialize (IH (2 + k)%nat).
      destruct (run_server _ _ _ _ _ _ _ (2 + k) events) as [st cs].
      constructor; assumption.
  - revert k. unfold accepted_events.
    induction events as [|ev events IH]; intros k; [cbn; lia|].
    unfold serve in *. cbn [run_server filter].
    destruct ev as [c| |]; [|apply IH|cbn; lia].
    fold handle. destruct (handle k c) as [[e|] c'].
    + destruct (is_OSError e); [|cbn; lia].
      specialize (IH (2 + k)%nat).
      destruct (run_server _ _ _ _ _ _ _ (2 + k) events) as [st cs].
      cbn [snd List.length] in *. lia.
    + specialize (IH (2 + k)%nat).
      destruct (run_server _ _ _ _ _ _ _ (2 + k) events) as [st cs].
      cbn [snd List.length] in *. lia.
  - intros pre post ->. revert k. induction pre as [|ev pre IH]; intros k.
    + split; [reflexivity|]. cbn. discriminate.
    + unfold serve in *. cbn [app run_server].
      destruct ev as [c| |]; [|apply IH|split; [reflexivity|cbn; discriminate]].
      fold handle. destruct (handle k c) as [[e|] c'].
      * destruct (is_OSError e); [|split; [reflexivity|cbn; discriminate]].
        destruct (IH (2 + k)%nat) as [E Hn]. rewrite E.
        destruct (run_server _ _ _ _ _ _ _ (2 + k) (pre ++ [KeyboardInterrupt])) as [st cs] eqn:Er.
        rewrite E in Hn; try rewrite Er in Hn. split; [reflexivity|exact Hn].
      * destruct (IH (2 + k)%nat) as [E Hn]. rewrite E.
        destruct (run_server _ _ _ _ _ _ _ (2 + k) (pre ++ [KeyboardInterrupt])) as [st cs] eqn:Er.
        rewrite E in Hn; try rewrite Er in Hn. split; [reflexivity|exact Hn].
  - revert k. induction events as [|ev events IH]; intros k; [reflexivity|].
    unfold serve in *. cbn [filter]. destruct ev as [c| |]; cbn [run_server].
    + rewrite IH. reflexivity.
    + apply IH.
    + reflexivity.
Qed.

Lemma validate_readings_declared rs :
  forallb declared_types rs = true ->
  exists validated, Validators.validate_readings fromisoformat_ok rs = inr validated.
Proof.
  intros H.
  destruct (@map_result_all _ _ (Validators.validate_single_reading fromisoformat_ok) rs)
    as (ess & E & _).
  { intros x Hx. rewrite forallb_forall in H.
    apply declared_types_completes. auto. }
  unfold Validators.validate_readings.
  rewrite (validate_loop_complete _ _ [] [] E). eauto.
Qed.

(** X27. An [ingest_request] whose readings have the types the dataclass
    declares is always validated, and [handle_client] answers it with one
    [ingest_response] envelope built from the validated batch under the
    request id of the message, closes the socket and returns; no exception
    leaves the handler. *)
Theorem well_typed_batch_answered k c text buffer rest msg rid payload req :
  recv_line (incoming c) [] MAX_MESSAGE_SIZE = (inr (Some text), buffer, rest) ->
  decode_message json_loads text = inr msg ->
  py_get msg (lit "request_id") (PStr (lit "unknown")) = inr rid ->
  py_get msg (lit "type") (PStr []) = inr (PStr (lit "ingest_request")) ->
  py_get msg (lit "payload") (PDict []) = inr payload ->
  IngestRequest.from_dict payload = inr req ->
  forallb declared_types (IngestRequest.readings req) = true ->
  send_fails_softly c = true ->
  exists validated,
    Validators.validate_readings fromisoformat_ok (IngestRequest.readings req)
    = inr validated
    /\ forall data,
         encode_message json_dumps
           (build_message (uuid4 k) (now k) (lit "ingest_response")
              (IngestResponse.to_dict render
                 (make_response rid validated (elapsed_ms k))) rid) = inr data ->
         handle k c = (None, answered c rest data)
         /\ (send_succeeds c = true -> sent (answered c rest data) = sent c ++ [data])
         /\ (send_succeeds c = false -> sent (answered c rest data) = sent c).
Proof.
  intros Hr Hd Hrid Hty Hp Hreq Hdecl Hs.
  destruct (validate_readings_declared _ Hdecl) as [validated Hv].
  exists validated. split; [exact Hv|]. intros data He.
  split; [|apply answered_sent].
  - run_handler. step Hr. step Hd. step Hrid. step Hty.
    assert (E : py_eq_str (PStr (lit "ingest_request")) (lit "ingest_request") = true)
      by reflexivity.
    rewrite E. cbn [negb]. step Hp. step Hreq. step Hv. step He.
    destruct (@soft_send_outcome data (with_incoming c rest) rid Hs) as [E' Ho].
    unfold with_incoming in E'. rewrite E'. unfold answered, with_incoming.
    destruct (fst (sendall data _)) as [e|u]; [|reflexivity].
    destruct Ho as [Ho _]. destruct e; try discriminate Ho; reflexivity.
Qed.

End ExchangeFacts.

Lemma unsupported_type_answered_witness :
  handle_client (fun _ => lit "{}")
    (fun _ => inr (PDict [(lit "type", PStr (lit "ping"))]))
    (fun _ => true) (fun _ => []) (fun _ => lit "id") (fun _ => lit "now")
    (fun _ => FFin 0) 0 (mk_connection [Data [x7b; x7d; x0a]] [] [] false)
  = (None, mk_connection [] [] [[x7b; x7d; x0a]] true)
  /\ handle_client (fun _ => [55296%N])
       (fun _ => inr (PDict [(lit "type", PStr (lit "ping"));
                             (lit "request_id", PStr [55296%N])]))
       (fun _ => true) (fun _ => []) (fun _ => lit "id") (fun _ => lit "now")
       (fun _ => FFin 0) 0 (mk_connection [Data [x7b; x7d; x0a]] [] [] false)
     = (Some (ValueError (TUnicodeEncode [55296%N; 10%N])),
        mk_connection [] [] [] true).
Proof.
  split.
  - exact (proj1 (proj1 (proj2
             (@unsupported_type_answered (fun _ => lit "{}")
                (fun _ => inr (PDict [(lit "type", PStr (lit "ping"))]))
                (fun _ => true) (fun _ => []) (fun _ => lit "id")
                (fun _ => lit "now") (fun _ => FFin 0) 0
                (mk_connection [Data [x7b; x7d; x0a]] [] [] false)
                (lit "{}") [] [] (PDict [(lit "type", PStr (lit "ping"))])
                unknown (PStr (lit "ping"))
                eq_refl eq_refl eq_refl eq_refl eq_refl eq_refl))
             [x7b; x7d; x0a] eq_refl)).
  - exact (proj1 (proj2 (proj2 (proj2
             (@unsupported_type_answered (fun _ => [55296%N])
                (fun _ => inr (PDict [(lit "type", PStr (lit "ping"));
                                      (lit "request_id", PStr [55296%N])]))
                (fun _ => true) (fun _ => []) (fun _ => lit "id")
                (fun _ => lit "now") (fun _ => FFin 0) 0
                (mk_connection [Data [x7b; x7d; x0a]] [] [] false)
                (lit "{}") [] []
                (PDict [(lit "type", PStr (lit "ping"));
                        (lit "request_id", PStr [55296%N])])
                (PStr [55296%N]) (PStr (lit "ping"))
                eq_refl eq_refl eq_refl eq_refl eq_refl eq_refl)))
             (ValueError (TUnicodeEncode [55296%N; 10%N]))
             (ValueError (TUnicodeEncode [55296%N; 10%N])) eq_refl eq_refl)).
Defined.

Lemma read_failure_is_silent_witness :
  handle_client (fun _ => lit "{}") (fun _ => inr (PDict []))
    (fun _ => true) (fun _ => []) (fun _ => lit "id") (fun _ => lit "now")
    (fun _ => FFin 0) 0 (mk_connection [Data [x7b]; RecvTimeout] [] [] false)
  = (None, mk_connection [] [] [] true).
Proof.
  exact (proj1 (@read_failure_is_silent (fun _ => lit "{}") (fun _ => inr (PDict []))
                  (fun _ => true) (fun _ => []) (fun _ => lit "id")
                  (fun _ => lit "now") (fun _ => FFin 0) 0
                  (mk_connection [Data [x7b]; RecvTimeout] [] [] false)
                  (inl SocketTimeout) [x7b] [] eq_refl eq_refl)).
Defined.

Lemma unreadable_message_answered_witness :
  handle_client (fun _ => lit "{}") (fun _ => inr (PDict []))
    (fun _ => true) (fun _ => []) (fun _ => lit "id") (fun _ => lit "now")
    (fun _ => FFin 0) 0 (mk_connection [Data [x20; x0a]] [] [] false)
  = (None, mk_connection [] [] [[x7b; x7d; x0a]] true).
Proof.
  refine (proj1 (@unreadable_message_answered (fun _ => lit "{}")
                   (fun _ => inr (PDict []))
                   (fun _ => true) (fun _ => []) (fun _ => lit "id")
                   (fun _ => lit "now") (fun _ => FFin 0) 0
                   (mk_connection [Data [x20; x0a]] [] [] false)
                   (inr (Some (lit " "))) [] [] TEmptyMessage [x7b; x7d; x0a]
                   eq_refl _ eq_refl eq_refl)).
  right. exists (lit " "). split; reflexivity.
Defined.

Lemma escaped_exception_stops_server_witness :
  run_server (fun _ => lit "{}") (fun _ => inr (PList []))
    (fun _ => true) (fun _ => []) (fun _ => lit "id") (fun _ => lit "now")
    (fun _ => FFin 0) 0
    [Accepted array_connection; Accepted array_connection; KeyboardInterrupt]
  = (Crashed AttributeError, [mk_connection [] [] [] true]).
Proof.
  exact (proj2 (@escaped_exception_stops_server (fun _ => lit "{}")
                  (fun _ => inr (PList []))
                  (fun _ => true) (fun _ => []) (fun _ => lit "id")
                  (fun _ => lit "now") (fun _ => FFin 0) 0
                  array_connection AttributeError (mk_connection [] [] [] true)
                  [Accepted array_connection; KeyboardInterrupt] eq_refl)).
Defined.

Lemma well_typed_batch_answered_witness :
  handle_client (fun _ => lit "{}") (fun _ => inr two_error_request)
    (fun _ => true) (fun _ => []) (fun _ => lit "id") (fun _ => lit "now")
    (fun _ => FFin 0) 0 (mk_connection [Data [x7b; x7d; x0a]] [] [] false)
  = (None, mk_connection [] [] [[x7b; x7d; x0a]] true).
Proof.
  destruct (@well_typed_batch_answered (fun _ => lit "{}")
              (fun _ => inr two_error_request)
              (fun _ => true) (fun _ => []) (fun _ => lit "id")
              (fun _ => lit "now") (fun _ => FFin 0) 0
              (mk_connection [Data [x7b; x7d; x0a]] [] [] false)
              (lit "{}") [] [] two_error_request (PStr (lit "r-2"))
              (IngestRequest.to_dict
                 (IngestRequest.mk (PStr (lit "station_agri_01")) two_error_batch))
              (IngestRequest.mk (PStr (lit "station_agri_01")) two_error_batch)
              eq_refl eq_refl eq_refl eq_refl eq_refl eq_refl eq_refl eq_refl)
    as (validated & _ & H).
  exact (proj1 (H [x7b; x7d; x0a] eq_refl)).
Defined.

(* ================================================================== *)
(** * The client *)

Section ClientFacts.
Variable json_dumps : pyval -> str.
Variable json_loads : str -> str + pyval.

Let request := Client.send_ingest_request json_dumps json_loads.
Let exchange := Client.with_socket json_dumps json_loads.

(** The [with] block makes at most one [sendall] call and never closes the
    socket itself. *)
Lemma with_socket_sent request_msg s :
  closed (snd (exchange request_msg s)) = closed (Client.link s)
  /\ exists data,
       sent (snd (exchange request_msg s)) = sent (Client.link s) ++ data
       /\ (List.length data <= 1)%nat.
Proof.
  unfold exchange, Client.with_socket.
  assert (Hnil : closed (Client.link s) = closed (Client.link s)
                 /\ exists data, sent (Client.link s) = sent (Client.link s) ++ data
                                 /\ (List.length data <= 1)%nat).
  { split; [reflexivity|]. exists []. rewrite app_nil_r. split; [reflexivity|cbn; lia]. }
  destruct (Client.connect_error s); [exact Hnil|].
  destruct (encode_message json_dumps request_msg) as [e|payload]; [exact Hnil|].
  assert (Hs : exists data,
             sent (snd (sendall payload (Client.link s))) = sent (Client.link s) ++ data
             /\ (List.length data <= 1)%nat).
  { unfold sendall. destruct (sendall_script (Client.link s)) as [|[e|] script];
      cbn [snd sent]; [exists [payload]|exists []|exists [payload]];
      rewrite ?app_nil_r; split; try reflexivity; cbn; lia. }
  assert (Hc : closed (snd (sendall payload (Client.link s))) = closed (Client.link s)).
  { unfold sendall. destruct (sendall_script (Client.link s)) as [|[e|] script];
      reflexivity. }
  destruct (sendall payload (Client.link s)) as [[e|u] c]; cbn [snd] in *.
  - split; [exact Hc|]. exact Hs.
  - destruct (recv_line (incoming c) [] MAX_MESSAGE_SIZE) as [[r buffer] rest].
    assert (Hr : forall r',
      closed (snd (r' : result (option pyval),
                   mk_connection rest (sendall_script c) (sent c) (closed c)))
      = closed (Client.link s)
      /\ exists data,
           sent (snd (r', mk_connection rest (sendall_script c) (sent c) (closed c)))
           = sent (Client.link s) ++ data /\ (List.length data <= 1)%nat).
    { intros r'. cbn [snd closed sent]. split; [exact Hc|exact Hs]. }
    destruct r as [e|[line|]]; try apply Hr.
    destruct (decode_message json_loads line) as [e|response]; try apply Hr.
    destruct (py_get response (lit "type") PNone); apply Hr.
Qed.

(** X28. When the client can build its request from the loaded readings,
    the envelope has the type [ingest_request] and a fresh request id, and
    the server's [IngestRequest.from_dict] rebuilds from its payload the
    source [station_agri_01] and the readings the client built, in
    order. *)
Theorem build_request_reaches_server (uuid4 now : str) (raw_readings msg : pyval) :
  Client.build_request uuid4 now raw_readings = inr msg ->
  exists items readings payload,
    py_iter raw_readings = inr items
    /\ map_result SensorReading.from_dict items = inr readings
    /\ py_get msg (lit "type") (PStr []) = inr (PStr (lit "ingest_request"))
    /\ py_get msg (lit "request_id") (PStr (lit "unknown")) = inr (PStr uuid4)
    /\ py_get msg (lit "payload") (PDict []) = inr payload
    /\ IngestRequest.from_dict payload
       = inr (IngestRequest.mk (PStr (lit "station_agri_01")) readings).
Proof.
  unfold Client.build_request. intros H.
  destruct (py_iter raw_readings) as [e|items]; [discriminate H|].
  cbn [bind] in H.
  destruct (map_result SensorReading.from_dict items) as [e|readings] eqn:Em;
    [discriminate H|].
  cbn [bind ok] in H. injection H as <-.
  exists items, readings,
    (IngestRequest.to_dict (IngestRequest.mk (PStr (lit "station_agri_01")) readings)).
  split; [reflexivity|]. split; [exact Em|].
  split; [reflexivity|]. split; [reflexivity|]. split; [reflexivity|].
  apply from_dict_to_dict_request.
Qed.

(** X29. Whatever the network does, [send_ingest_request] called with a
    dict closes its socket, makes at most one [sendall] call and never lets
    an [OSError] out; when the connection is refused, reset or times out it
    returns [None] with nothing sent. *)
Theorem send_ingest_request_contains_network_errors request_msg s :
  is_dict request_msg = true ->
  closed (snd (request request_msg s)) = true
  /\ (forall e, fst (request request_msg s) = inl e -> is_OSError e = false)
  /\ (exists data,
        sent (snd (request request_msg s)) = sent (Client.link s) ++ data
        /\ (List.length data <= 1)%nat)
  /\ (forall e, Client.connect_error s = Some e -> is_OSError e = true ->
        request request_msg s = (ok None, close (Client.link s))).
Proof.
  intros Hd. destruct request_msg as [| | | | | |d]; try discriminate Hd.
  unfold request, Client.send_ingest_request. cbn [py_get ok].
  fold exchange.
  pose proof (with_socket_sent (PDict d) s) as [_ Hs].
  assert (Hcon : forall e, Client.connect_error s = Some e ->
                 exchange (PDict d) s = (inl e, Client.link s)).
  { intros e He. unfold exchange, Client.with_socket. rewrite He. reflexivity. }
  destruct (exchange (PDict d) s) as [r c] eqn:E. cbn [snd] in Hs.
  split; [|split; [|split]].
  - destruct r as [e|response]; [destruct (is_OSError e)|]; reflexivity.
  - intros e. destruct r as [e0|response]; [|discriminate].
    destruct (is_OSError e0) eqn:Ee; [discriminate|].
    cbn [fst]. intros [= <-]. exact Ee.
  - destruct r as [e|response]; [destruct (is_OSError e)|]; exact Hs.
  - intros e He Ho. specialize (Hcon e He). injection Hcon as -> ->.
    rewrite Ho. reflexivity.
Qed.

(** X30. When the connection and the send succeed and the server's reply,
    a JSON object written by [encode_message], arrives cut into chunks in
    any way, [send_ingest_request] returns that reply, having sent the
    encoded request once and closed the socket. *)
Theorem send_ingest_request_reads_reply request_msg s payload reply data chunks rest :
  is_dict request_msg = true ->
  Client.connect_error s = None ->
  encode_message json_dumps request_msg = inr payload ->
  send_succeeds (Client.link s) = true ->
  incoming (Client.link s) = List.map Data chunks ++ rest ->
  Forall (fun c => c <> []) chunks ->
  List.concat chunks = data ->
  encode_message json_dumps reply = inr data ->
  ~ In 10%N (json_dumps reply) ->
  braced (json_dumps reply) ->
  json_loads (json_dumps reply) = inr reply ->
  Z.of_nat (List.length data) <= MAX_MESSAGE_SIZE ->
  is_dict reply = true ->
  request request_msg s
  = (ok (Some reply),
     mk_connection rest (tl (sendall_script (Client.link s)))
       (sent (Client.link s) ++ [payload]) true).
Proof.
  intros Hd Hcon Hp Hs Hin Hne Hc He Hn Hb Hl Hmax Hr.
  destruct (@recv_line_encoded_message json_dumps json_loads reply data chunks rest
              MAX_MESSAGE_SIZE He Hn Hb Hl Hne Hc Hmax) as (line & Hrecv & _ & Hdec).
  destruct request_msg as [| | | | | |d]; try discriminate Hd.
  destruct reply as [| | | | | |rd]; try discriminate Hr.
  unfold request, Client.send_ingest_request, Client.with_socket.
  cbn [py_get ok]. rewrite Hcon, Hp.
  unfold send_succeeds in Hs. unfold sendall.
  destruct (sendall_script (Client.link s)) as [|[e|] script]; try discriminate Hs;
    cbn [incoming sendall_script sent closed tl]; rewrite Hin, Hrecv, Hdec;
    reflexivity.
Qed.

End ClientFacts.

Lemma build_request_reaches_server_witness :
  exists items readings payload,
    py_iter (PList [SensorReading.to_dict sample_reading]) = inr items
    /\ map_result SensorReading.from_dict items = inr readings
    /\ py_get (build_message (lit "id") (lit "now") (lit "ingest_request")
                 (IngestRequest.to_dict
                    (IngestRequest.mk (PStr (lit "station_agri_01")) [sample_reading]))
                 PNone)
         (lit "type") (PStr []) = inr (PStr (lit "ingest_request"))
    /\ py_get (build_message (lit "id") (lit "now") (lit "ingest_request")
                 (IngestRequest.to_dict
                    (IngestRequest.mk (PStr (lit "station_agri_01")) [sample_reading]))
                 PNone)
         (lit "request_id") (PStr (lit "unknown")) = inr (PStr (lit "id"))
    /\ py_get (build_message (lit "id") (lit "now") (lit "ingest_request")
                 (IngestRequest.to_dict
                    (IngestRequest.mk (PStr (lit "station_agri_01")) [sample_reading]))
                 PNone)
         (lit "payload") (PDict []) = inr payload
    /\ IngestRequest.from_dict payload
       = inr (IngestRequest.mk (PStr (lit "station_agri_01")) readings).
Proof.
  exact (@build_request_reaches_server (lit "id") (lit "now")
           (PList [SensorReading.to_dict sample_reading]) _ eq_refl).
Defined.

Lemma send_ingest_request_contains_network_errors_witness :
  Client.send_ingest_request (fun _ => lit "{}") (fun _ => inr (PDict [])) (PDict [])
    (Client.mk_socket (Some OSError) (mk_connection [] [] [] false))
  = (ok None, mk_connection [] [] [] true).
Proof.
  exact (proj2 (proj2 (proj2
           (@send_ingest_request_contains_network_errors (fun _ => lit "{}")
              (fun _ => inr (PDict [])) (PDict [])
              (Client.mk_socket (Some OSError) (mk_connection [] [] [] false))
              eq_refl))) OSError eq_refl eq_refl).
Defined.

Lemma send_ingest_request_reads_reply_witness :
  Client.send_ingest_request (fun _ => lit "{}") (fun _ => inr (PDict [])) (PDict [])
    (Client.mk_socket None
       (mk_connection [Data [x7b]; Data [x7d; x0a]] [] [] false))
  = (ok (Some (PDict [])), mk_connection [] [] [[x7b; x7d; x0a]] true).
Proof.
  refine (@send_ingest_request_reads_reply (fun _ => lit "{}")
            (fun _ => inr (PDict [])) (PDict [])
            (Client.mk_socket None
               (mk_connection [Data [x7b]; Data [x7d; x0a]] [] [] false))
            [x7b; x7d; x0a] (PDict []) [x7b; x7d; x0a] [[x7b]; [x7d; x0a]] []
            eq_refl eq_refl eq_refl eq_refl eq_refl _ eq_refl eq_refl _ _ eq_refl _
            eq_refl).
  - repeat constructor; discriminate.
  - intros [H|[H|[]]]; discriminate H.
  - exists []. reflexivity.
  - vm_compute; discriminate.
Defined.
